(** * decode_keystone_ur.py: a shallow embedding and its properties

    The script turns the text of a Keystone [UR:BYTES/...] code into bytes,
    decodes the bytes as CBOR, looks for a transaction blob in the decoded
    object, and otherwise scans the text for a long run of hexadecimal
    digits.  This file embeds the five functions of the script and proves
    properties of them. *)

From Stdlib Require Import String Ascii.
From Stdlib Require Import Strings.Byte.
From Stdlib Require Import List ZArith Bool Lia Arith.
Import ListNotations.
Set Warnings "-register-all".
Local Open Scope Z_scope.

(** ** Python data *)

(** A Python [str] is a sequence of Unicode code points; a code point is
    kept as the integer [ord] returns. *)
Definition char := Z.
Definition str := list char.

(** A Python [bytes] object. *)
Definition bytes := list byte.

(** Literals are written as Rocq strings and read off code point by code
    point. *)
Definition py (s : string) : str :=
  map (fun a => Z.of_N (N_of_ascii a)) (list_ascii_of_string s).

Definition ord_byte (b : byte) : Z := Z.of_N (Byte.to_N b).

(** The objects [cbor2.loads] can produce.  A [dict] keeps its entries in
    insertion order; [VOther] stands for every other object (floats, tags,
    dates, ...), of which only the truth value is ever observed.

    From shared references (tags 28 and 29) [cbor2] can build a [dict] that
    contains itself.  The script only reads the object, so such a [dict]
    and its unfolding behave alike for it, and the interpreter stops the
    search at its recursion limit: the object is kept here as an unfolding
    deeper than that limit ([self_containing] below is one). *)
Inductive value : Type :=
| VDict (entries : list (value * value))
| VList (items : list value)
| VStr (s : str)
| VBytes (b : bytes)
| VInt (n : Z)
| VBool (b : bool)
| VNone
| VOther (truth : bool).

(** The exceptions that can escape from the code below. *)
Inductive exn : Type := TypeError | ValueError | RecursionError.

(** A computation either returns or raises. *)
Inductive result (A : Type) : Type :=
| Ok (a : A)
| Raise (e : exn).
Arguments Ok {A} a.
Arguments Raise {A} e.

Definition bind {A B : Type} (r : result A) (k : A -> result B) : result B :=
  match r with
  | Ok a => k a
  | Raise e => Raise e
  end.

Notation "x <- r ;; k" := (bind r (fun x => k))
  (at level 61, r at next level, right associativity).

(** What the script takes from outside itself: the Unicode upper-case table
    behind [str.upper] for the code points above ASCII, [base64.b32decode]
    and [cbor2.loads], and the room the interpreter leaves for recursion.
    The two library calls sit under [try]/[except], so all that the script
    sees of a failure is that there is no value.  [recursion_depth] is how
    many calls of [extract_xrpl_transaction] the interpreter lets nest
    inside the one that [decode_keystone_ur] makes, before it raises
    [RecursionError] (with the default limit of 1000, a little under a
    thousand). *)
Class Runtime : Type := {
  unicode_upper : char -> str;
  b32decode : str -> option bytes;
  cbor2_loads : bytes -> option value;
  recursion_depth : nat
}.

(** ** String primitives *)

Definition nonempty {A : Type} (l : list A) : bool :=
  match l with
  | [] => false
  | _ :: _ => true
  end.

Definition in_range (lo hi c : char) : bool := (lo <=? c) && (c <=? hi).

Definition is_digit (c : char) : bool := in_range 48 57 c.
Definition is_upper_AZ (c : char) : bool := in_range 65 90 c.
Definition is_lower_az (c : char) : bool := in_range 97 122 c.

(** The character class [[0-9A-Fa-f]]. *)
Definition is_hex (c : char) : bool :=
  is_digit c || in_range 65 70 c || in_range 97 102 c.

(** The character class [[0-9A-F]]. *)
Definition is_upper_hex (c : char) : bool :=
  is_digit c || in_range 65 70 c.

Definition ascii_upper (c : char) : char :=
  if is_lower_az c then c - 32 else c.

Fixpoint str_eqb (a b : str) : bool :=
  match a, b with
  | [], [] => true
  | x :: a', y :: b' => (x =? y) && str_eqb a' b'
  | _, _ => false
  end.

(** [s.startswith(p)] *)
Fixpoint startswith (p s : str) : bool :=
  match p, s with
  | [], _ => true
  | x :: p', y :: s' => (x =? y) && startswith p' s'
  | _ :: _, [] => false
  end.

(** The longest prefix of [s] made of characters in the class [p], and what
    follows it. *)
Fixpoint span (p : char -> bool) (s : str) : str * str :=
  match s with
  | [] => ([], [])
  | c :: s' =>
      if p c then let (run, rest) := span p s' in (c :: run, rest)
      else ([], s)
  end.

(** [rest] does not start with a character of the class [p]. *)
Definition stops (p : char -> bool) (rest : str) : Prop :=
  match rest with
  | [] => True
  | c :: _ => p c = false
  end.

(** The two ways a string can end for [$] to hold after the digits. *)
Definition line_end (rest : str) : Prop := rest = [] \/ rest = [10].

(** [re.match(r'^[0-9A-F]+$', s)]: the pattern of the blob invariant, with
    the greedy class and [$] read as Python reads them ([$] holds at the end
    of the string and just before a line feed that ends it). *)
Definition match_upper_hex_text (s : str) : bool :=
  let (run, rest) := span is_upper_hex s in
  nonempty run &&
  match rest with
  | [] => true
  | [c] => c =? 10
  | _ => false
  end.

Definition is_dict (v : value) : bool :=
  match v with
  | VDict _ => true
  | _ => false
  end.

(** ** The regular expression of the fallback *)

(** The pattern [[0-9A-Fa-f]{100,}] tried at the start of [s]: the greedy
    repetition takes every leading hexadecimal digit, and the attempt
    succeeds when there are a hundred of them or more.  The result is the
    matched text and what is left after it. *)
Definition match_hex_run (s : str) : option (str * str) :=
  let (run, rest) := span is_hex s in
  if (100 <=? length run)%nat then Some (run, rest) else None.

(** [re.findall] with that pattern: where the attempt succeeds the match is
    recorded and the search goes on after it, where it fails the search
    moves one character on.  The search position strictly advances, and
    [fuel] counts the steps left. *)
Fixpoint findall_steps (fuel : nat) (s : str) : list str :=
  match fuel, s with
  | O, _ => []
  | _, [] => []
  | S fuel', _ :: s' =>
      match match_hex_run s with
      | Some (run, rest) => run :: findall_steps fuel' rest
      | None => findall_steps fuel' s'
      end
  end.

(** One step per character is enough. *)
Definition findall_hex_runs (s : str) : list str :=
  findall_steps (length s) s.

Definition hex_prefixes : list str :=
  [py "12"; py "00"; py "01"; py "02"; py "03"; py "05"].

(** [match.startswith(('12', '00', '01', '02', '03', '05'))] *)
Definition looks_like_transaction (m : str) : bool :=
  existsb (fun p => startswith p m) hex_prefixes.

(** [if cbor_data:] and its like: the truth value of an object. *)
Definition truthy (v : value) : bool :=
  match v with
  | VDict entries => nonempty entries
  | VList items => nonempty items
  | VStr s => nonempty s
  | VBytes b => nonempty b
  | VInt n => negb (n =? 0)
  | VBool b => b
  | VNone => false
  | VOther truth => truth
  end.

Section Script.
Context {R : Runtime}.

(** [s.upper()]: every character is replaced by its full upper-case mapping,
    which for some code points above ASCII is more than one character. *)
Definition upper_char (c : char) : str :=
  if c <? 128 then [ascii_upper c] else unicode_upper c.

Definition str_upper (s : str) : str := flat_map upper_char s.

(** The upper-case form of a character, for a character whose upper-case
    form is one character. *)
Definition upper_form (c : char) : char := hd c (upper_char c).

(** ** [decode_keystone_bytewords] *)

(** The arithmetic of the inner loop: [36 ** (3-j)] is an [int] while the
    exponent is not negative and a [float] below; a [float] operand makes the
    whole expression a [float].  No operation here looks at the value of a
    [float], so it is not kept. *)
Inductive pynum : Type :=
| PyInt (z : Z)
| PyFloat.

Definition pow36 (e : Z) : pynum :=
  if 0 <=? e then PyInt (36 ^ e) else PyFloat.

Definition char_val (c : char) : Z :=
  if is_upper_AZ c then c - 65
  else if is_digit c then c - 48 + 26
  else 0.

(** [byte_val = (byte_val + char_val * (36 ** (3-j))) % 256] *)
Definition accumulate (j : Z) (byte_val : pynum) (c : char) : pynum :=
  match byte_val, pow36 (3 - j) with
  | PyInt b, PyInt w => PyInt ((b + char_val c * w) mod 256)
  | _, _ => PyFloat
  end.

(** [for j, char in enumerate(chunk)], from index [j] on. *)
Fixpoint chunk_value (j : Z) (byte_val : pynum) (chunk : str) : pynum :=
  match chunk with
  | [] => byte_val
  | c :: rest => chunk_value (j + 1) (accumulate j byte_val c) rest
  end.

(** [bytearray.append]: an [int] in [range(256)] is stored, another [int] is
    a [ValueError] and anything that is not an [int] a [TypeError]. *)
Definition append_byte (v : pynum) : result byte :=
  match v with
  | PyInt z =>
      if (0 <=? z) && (z <? 256) then
        match Byte.of_N (Z.to_N z) with
        | Some b => Ok b
        | None => Raise ValueError
        end
      else Raise ValueError
  | PyFloat => Raise TypeError
  end.

(** The [while i < len(data) - 3] loop: it takes [data[i:i+4]] while four
    characters are left and steps by four. *)
Fixpoint decode_keystone_bytewords (data : str) : result bytes :=
  match data with
  | a :: b :: c :: d :: rest =>
      x <- append_byte (chunk_value 0 (PyInt 0) (str_upper [a; b; c; d])) ;;
      xs <- decode_keystone_bytewords rest ;;
      Ok (x :: xs)
  | _ => Ok []
  end.

(** ** [decode_base32_alphabet] *)

Definition alphabet : str := py "023456789acdefghjklmnpqrstuvwxyz".
Definition standard_alphabet : str := py "ABCDEFGHIJKLMNOPQRSTUVWXYZ234567".

(** [str.maketrans(alphabet.upper(), standard_alphabet)] *)
Definition translation : list (char * char) :=
  combine (str_upper alphabet) standard_alphabet.

Fixpoint translate_char (table : list (char * char)) (c : char) : char :=
  match table with
  | [] => c
  | (k, v) :: table' => if k =? c then v else translate_char table' c
  end.

Definition translate (table : list (char * char)) (s : str) : str :=
  map (translate_char table) s.

(** [for padding in range(8)]: the first padding [b32decode] accepts. *)
Fixpoint try_paddings (translated : str) (paddings : list nat) : bytes :=
  match paddings with
  | [] => []
  | padding :: more =>
      match b32decode (translated ++ repeat 61 padding) with
      | Some decoded => decoded
      | None => try_paddings translated more
      end
  end.

(** The part of [decode_base32_alphabet] below the bytewords attempt. *)
Definition base32_fallback (data : str) : bytes :=
  try_paddings (translate translation (str_upper data)) (seq 0 8).

Definition decode_base32_alphabet (data : str) : result bytes :=
  if (10 <? length data)%nat then
    bytewords_result <- decode_keystone_bytewords data ;;
    if nonempty bytewords_result then Ok bytewords_result
    else Ok (base32_fallback data)
  else Ok (base32_fallback data).

(** ** [decode_cbor_bytes] *)

Definition decode_cbor_bytes (data : bytes) : option value :=
  cbor2_loads data.

(** ** [extract_xrpl_transaction] *)

Definition possible_fields : list str :=
  [py "signedTransaction"; py "signature"; py "txBlob"; py "blob";
   py "transaction"; py "hex"; py "data"].

(** [cbor_data[field]] when [field in cbor_data], for a [str] field. *)
Fixpoint dict_get (entries : list (value * value)) (field : str)
  : option value :=
  match entries with
  | [] => None
  | (VStr k, v) :: entries' =>
      if str_eqb k field then Some v else dict_get entries' field
  | _ :: entries' => dict_get entries' field
  end.

(** [re.match(r'^[0-9A-Fa-f]+$', value)]: the greedy class takes every
    leading hexadecimal digit, at least one, and [$] holds at the end of the
    string and also just before a line feed that ends the string. *)
Definition match_hex_text (s : str) : bool :=
  let (run, rest) := span is_hex s in
  nonempty run &&
  match rest with
  | [] => true
  | [c] => c =? 10
  | _ => false
  end.

Definition hex_digit (n : Z) : char :=
  if n <? 10 then 48 + n else 97 + (n - 10).

(** [bytes.hex()] *)
Definition bytes_hex (b : bytes) : str :=
  flat_map (fun x => [hex_digit (ord_byte x / 16);
                      hex_digit (ord_byte x mod 16)]) b.

(** The body of the loop over [possible_fields] for one field: what it
    returns, if it returns. *)
Definition field_blob (entries : list (value * value)) (field : str)
  : option str :=
  match dict_get entries field with
  | Some (VStr value) =>
      if match_hex_text value then Some (str_upper value) else None
  | Some (VBytes value) => Some (str_upper (bytes_hex value))
  | _ => None
  end.

(** [for field in possible_fields] *)
Fixpoint scan_fields (entries : list (value * value)) (fields : list str)
  : option str :=
  match fields with
  | [] => None
  | field :: more =>
      match field_blob entries field with
      | Some blob => Some blob
      | None => scan_fields entries more
      end
  end.

(** [for key, value in cbor_data.items()], with [self] the recursive call:
    a result counts when it is a non-empty string. *)
Definition scan_nested (self : value -> option str)
  : list (value * value) -> option str :=
  fix go (entries : list (value * value)) : option str :=
    match entries with
    | [] => None
    | (_, value) :: entries' =>
        match value with
        | VDict _ =>
            match self value with
            | Some result =>
                if nonempty result then Some result else go entries'
            | None => go entries'
            end
        | _ => go entries'
        end
    end.

(** What [extract_xrpl_transaction] returns for an object, when the
    interpreter lets the recursion run to its end.  A call of the function
    under the recursion limit is [extract_xrpl_transaction_call] below. *)
Fixpoint extract_xrpl_transaction (cbor_data : value) : option str :=
  match cbor_data with
  | VDict entries =>
      match scan_fields entries possible_fields with
      | Some blob => Some blob
      | None => scan_nested extract_xrpl_transaction entries
      end
  | _ => None
  end.

(** The loop over [cbor_data.items()] when the recursive call can raise:
    nothing catches the exception, so it ends the loop and the call. *)
Definition scan_nested_call (self : value -> result (option str))
  : list (value * value) -> result (option str) :=
  fix go (entries : list (value * value)) : result (option str) :=
    match entries with
    | [] => Ok None
    | (_, value) :: entries' =>
        match value with
        | VDict _ =>
            match self value with
            | Ok (Some result) =>
                if nonempty result then Ok (Some result) else go entries'
            | Ok None => go entries'
            | Raise e => Raise e
            end
        | _ => go entries'
        end
    end.

(** A call of [extract_xrpl_transaction] with room for [frames] nested
    calls of it, this one counted: with no room the interpreter raises
    [RecursionError] instead of entering the function. *)
Fixpoint extract_xrpl_transaction_call (frames : nat) (cbor_data : value)
  : result (option str) :=
  match frames with
  | O => Raise RecursionError
  | S frames' =>
      match cbor_data with
      | VDict entries =>
          match scan_fields entries possible_fields with
          | Some blob => Ok (Some blob)
          | None =>
              scan_nested_call (extract_xrpl_transaction_call frames') entries
          end
      | _ => Ok None
      end
  end.

(** ** [decode_keystone_ur] *)

Definition ur_prefix : str := py "UR:BYTES/".

(** [ur_data[9:]] when [ur_data.startswith('UR:BYTES/')]. *)
Definition strip_prefix (ur_data : str) : str :=
  if startswith ur_prefix ur_data then skipn 9 ur_data else ur_data.

(** Method 1, from the decoded bytes on: the blob it returns, if it
    returns one; the call of the field extractor is under no [try]. *)
Definition method1 (decoded_bytes : bytes) : result (option str) :=
  if nonempty decoded_bytes then
    match decode_cbor_bytes decoded_bytes with
    | Some cbor_data =>
        if truthy cbor_data then
          tx_blob <- extract_xrpl_transaction_call (S recursion_depth)
                       cbor_data ;;
          match tx_blob with
          | Some blob => if nonempty blob then Ok (Some blob) else Ok None
          | None => Ok None
          end
        else Ok None
    | None => Ok None
    end
  else Ok None.

(** [for match in hex_matches] *)
Fixpoint first_transaction (hex_matches : list str) : option str :=
  match hex_matches with
  | [] => None
  | m :: more =>
      if looks_like_transaction m then Some (str_upper m)
      else first_transaction more
  end.

(** Method 2. *)
Definition scan_fallback (ur_content : str) : option str :=
  first_transaction (findall_hex_runs ur_content).

Definition decode_keystone_ur (ur_data : str) : result (option str) :=
  let ur_content := strip_prefix ur_data in
  decoded_bytes <- decode_base32_alphabet ur_content ;;
  found <- method1 decoded_bytes ;;
  match found with
  | Some tx_blob => Ok (Some tx_blob)
  | None => Ok (scan_fallback ur_content)
  end.

End Script.

(** ** The specification's wording of three procedures *)

Module Spec.

(** Section 4.1: a character as a base-36 digit, letters first. *)
Definition digit_value (c : char) : Z :=
  if is_upper_AZ c then c - 65
  else if is_lower_az c then c - 97
  else if is_digit c then c - 48 + 26
  else 0.

(** Section 4.1: the byte of one group of four characters, for a reading
    [digit] of characters as digits. *)
Definition group_byte (digit : char -> Z) (a b c d : char) : Z :=
  (digit a * 36 ^ 3 + digit b * 36 ^ 2 + digit c * 36 ^ 1 + digit d * 36 ^ 0)
  mod 256.

(** Section 4.1: one byte per consecutive group of four, the remainder
    dropped. *)
Fixpoint word_chunks (digit : char -> Z) (s : str) : list Z :=
  match s with
  | a :: b :: c :: d :: rest =>
      group_byte digit a b c d :: word_chunks digit rest
  | _ => []
  end.

(** Section 4.4: the maximal runs of hexadecimal digits of [s], in order of
    appearance; [cur] is the run being read, last character first. *)
Definition close_run (cur : str) : list str :=
  match cur with
  | [] => []
  | _ :: _ => [rev cur]
  end.

Fixpoint runs_from (cur : str) (s : str) : list str :=
  match s with
  | [] => close_run cur
  | c :: s' =>
      if is_hex c then runs_from (c :: cur) s'
      else close_run cur ++ runs_from [] s'
  end.

Definition maximal_hex_runs (s : str) : list str := runs_from [] s.

(** What it is for [runs] to be the maximal runs of hexadecimal digits of a
    string, in order of appearance: the string is a stretch without such
    digits, or such a stretch, a run that nothing extends to the right, and
    a string whose maximal runs are the other runs. *)
Definition no_hex (gap : str) : bool :=
  forallb (fun c => negb (is_hex c)) gap.

Inductive hex_runs_of : str -> list str -> Prop :=
| runs_none (gap : str) :
    no_hex gap = true -> hex_runs_of gap []
| runs_next (gap run rest : str) (runs : list str) :
    no_hex gap = true ->
    run <> [] -> forallb is_hex run = true -> stops is_hex rest ->
    hex_runs_of rest runs ->
    hex_runs_of (gap ++ run ++ rest) (run :: runs).

(** Section 4.4 in its own words, with nothing taken from the code: the
    hexadecimal digit characters (0-9, A-F, a-f), the six literal
    two-character prefixes, and the upper-case form of a run. *)
Definition hex_digit_chars : str := py "0123456789ABCDEFabcdef".

(** The invariant of ExtractedBlob: the characters of ^[0-9A-F]+$. *)
Definition upper_hex_digit_chars : str := py "0123456789ABCDEF".

Definition is_hex_digit (c : char) : bool :=
  existsb (Z.eqb c) hex_digit_chars.

Definition two_char_prefixes : list (char * char) :=
  [(49, 50); (48, 48); (48, 49); (48, 50); (48, 51); (48, 53)].

Definition has_prefix (run : str) : bool :=
  match run with
  | a :: b :: _ =>
      existsb (fun p => (fst p =? a) && (snd p =? b)) two_char_prefixes
  | _ => false
  end.

Definition upper_hex_digit (c : char) : char :=
  if c =? 97 then 65 else if c =? 98 then 66 else if c =? 99 then 67
  else if c =? 100 then 68 else if c =? 101 then 69
  else if c =? 102 then 70 else c.

(** [runs] are the maximal runs of hexadecimal digit characters of a
    string, in order of appearance: as [hex_runs_of], with the digits of
    [is_hex_digit]. *)
Inductive maximal_runs : str -> list str -> Prop :=
| maximal_runs_none (gap : str) :
    forallb (fun c => negb (is_hex_digit c)) gap = true ->
    maximal_runs gap []
| maximal_runs_next (gap run rest : str) (runs : list str) :
    forallb (fun c => negb (is_hex_digit c)) gap = true ->
    run <> [] -> forallb is_hex_digit run = true ->
    stops is_hex_digit rest ->
    maximal_runs rest runs ->
    maximal_runs (gap ++ run ++ rest) (run :: runs).

(** Section 4.4: the runs of a hundred digits or more. *)
Definition long_runs (s : str) : list str :=
  filter (fun run => (100 <=? length run)%nat) (maximal_hex_runs s).

(** Section 4.4: the first long run with one of the prefixes, every letter
    in upper case. *)
Definition scanFallback (text : str) : option str :=
  option_map (map ascii_upper) (find looks_like_transaction (long_runs text)).

(** Section 4.3: the first of the names that is a key of the map. *)
Definition is_present (entries : list (value * value)) (field : str) : bool :=
  match dict_get entries field with
  | Some _ => true
  | None => false
  end.

Definition first_present (entries : list (value * value)) : option str :=
  find (is_present entries) possible_fields.

(** The names that come after [field] in a list of names. *)
Fixpoint fields_after (field : str) (fields : list str) : list str :=
  match fields with
  | [] => []
  | g :: more => if str_eqb g field then more else fields_after field more
  end.

End Spec.

(** ** A runtime for the examples

    It knows the library facts the examples below rest on and nothing else:
    ['ß'.upper() == 'SS'] (code point 223), ['ſ'.upper() == 'S'] (code
    point 383), [base64.b32decode('') == b''],
    and [cbor2.loads] on an unsigned integer 17 (head byte 0x11; the decoder
    reads one item and leaves what follows it) and on the one-entry maps
    [{'hex': 'AB'}] (a1 63 68 65 78 62 41 42) and [{'hex': b''}]
    (a1 63 68 65 78 40) and on the map that is its own value under the
    key 'a' (d8 1c a1 61 61 d8 1d 00: tag 28 marks the map as shared, tag
    29 refers back to it).  On every other input it leaves the character
    as it is, or has no value.  It leaves room for 996 nested calls. *)

Definition demo_unicode_upper (c : char) : str :=
  if c =? 223 then py "SS" else if c =? 383 then py "S" else [c].

Definition demo_b32decode (s : str) : option bytes :=
  match s with
  | [] => Some []
  | _ :: _ => None
  end.

(** The map that is its own value under the key 'a', unfolded [depth]
    times. *)
Fixpoint self_containing (depth : nat) : value :=
  match depth with
  | O => VDict []
  | S depth' => VDict [(VStr (py "a"), self_containing depth')]
  end.

Definition demo_cbor2_loads (data : bytes) : option value :=
  match data with
  | [xd8; x1c; xa1; x61; x61; xd8; x1d; x00] => Some (self_containing 1000)
  | [xa1; x63; x68; x65; x78; x62; x41; x42] =>
      Some (VDict [(VStr (py "hex"), VStr (py "AB"))])
  | [xa1; x63; x68; x65; x78; x40] =>
      Some (VDict [(VStr (py "hex"), VBytes [])])
  | x11 :: _ => Some (VInt 17)
  | _ => None
  end.

Definition demo_runtime : Runtime := {|
  unicode_upper := demo_unicode_upper;
  b32decode := demo_b32decode;
  cbor2_loads := demo_cbor2_loads;
  recursion_depth := 996
|}.

(** The text whose word chunks are the CBOR encoding of the map that
    contains itself. *)
Definition ur_self_containing : str := py "DBAIABAMCCABBCABBCABDBAIABANAAAA".

(** A runtime that knows two more facts about [base64.b32decode]: it
    rejects a text whose length is not a multiple of eight, and
    [b32decode('ME======') == b'a']. *)
Definition demo_b32decode_padded (s : str) : option bytes :=
  if str_eqb s (py "ME======") then Some [x61] else demo_b32decode s.

Definition demo_runtime_base32 : Runtime := {|
  unicode_upper := demo_unicode_upper;
  b32decode := demo_b32decode_padded;
  cbor2_loads := demo_cbor2_loads;
  recursion_depth := 996
|}.

(** The text whose word chunks are the CBOR encoding of [{'hex': 'AB'}]. *)
Definition ur_hex_AB : str := py "CCABBCADBCAIBCAFBDAIBCACBAABBAAC".

(** The text whose word chunks are the CBOR encoding of [{'hex': b''}]. *)
Definition ur_hex_empty : str := py "CCABBCADBCAIBCAFBDAIBAAA".

(** ** Inputs of the examples *)

Definition text_entry (key text : string) : value * value :=
  (VStr (py key), VStr (py text)).

(** [{'signature': 'zz', 'txBlob': '1122'}] and the same entries in the
    other order. *)
Definition entries_signature_txBlob : list (value * value) :=
  [text_entry "signature" "zz"; text_entry "txBlob" "1122"].

Definition entries_txBlob_signature : list (value * value) :=
  [text_entry "txBlob" "1122"; text_entry "signature" "zz"].

(** [{'other': {'hex': 'AABB'}}] *)
Definition entries_other_hex : list (value * value) :=
  [(VStr (py "other"), VDict [text_entry "hex" "AABB"])].

(** [{'signedTransaction': 5, 'hex': 'ab', 'inner': {'data': 'CD'}}] *)
Definition entries_wrong_then_hex : list (value * value) :=
  [(VStr (py "signedTransaction"), VInt 5); text_entry "hex" "ab";
   (VStr (py "inner"), VDict [text_entry "data" "CD"])].

(** [{'hex': 'ABC'}] *)
Definition entries_hex_ABC : list (value * value) :=
  [text_entry "hex" "ABC"].

(** [{'hex': 'AB\n'}] *)
Definition entries_hex_AB_newline : list (value * value) :=
  [(VStr (py "hex"), VStr (py "AB" ++ [10]))].

(** [{'hex': b''}] *)
Definition entries_hex_empty : list (value * value) :=
  [(VStr (py "hex"), VBytes [])].

(** ['12' + 'ab' * 60] and ['xyz' + '12' + 'ab' * 60] *)
Definition run_12_ab : str := py "12" ++ concat (repeat (py "ab") 60).
Definition text_xyz_12_ab : str := py "xyz" ++ run_12_ab.

(** ['ff' * 50] and ['ff' * 50 + '/12/' + '12' + 'ab' * 60]: a long run
    without one of the prefixes, a short run with one, and a long run with
    one. *)
Definition run_ff : str := concat (repeat (py "ff") 50).
Definition text_ff_12_ab : str := run_ff ++ py "/12/" ++ run_12_ab.

(** ['ßAAA'], ['ßAAAAAAAAAAA'] and ['ſAAA'] *)
Definition sharp_s_chunk : str := 223 :: py "AAA".
Definition sharp_s_text : str := 223 :: py "AAAAAAAAAAA".
Definition long_s_chunk : str := 383 :: py "AAA".

(** ** [main] *)

Section Main.
Context {R : Runtime}.

(** What [main] tells its caller: the usage line on [stderr] with exit
    status 1, or one JSON object on [stdout], kept here by its fields:
    [{"success": true, "txBlob": ..., "message": ...}], or
    [{"success": false, "error": "Unable to extract ..."}], or
    [{"success": false, "error": "Decoding failed: ..."}] for an exception
    caught by [except Exception]. *)
Inductive report : Type :=
| Usage
| Success (txBlob : str)
| NoTransaction
| DecodingFailed (e : exn).

(** [sys.argv] is the script name and its arguments. *)
Definition main (argv : list str) : report :=
  match argv with
  | [_; ur_data] =>
      match decode_keystone_ur ur_data with
      | Ok (Some result) =>
          if nonempty result then Success result else NoTransaction
      | Ok None => NoTransaction
      | Raise e => DecodingFailed e
      end
  | _ => Usage
  end.


End Main.

(** ** Notions used to state further properties *)

(** The consecutive groups of four characters the word-chunk loop reads. *)
Fixpoint word_groups (data : str) : list str :=
  match data with
  | a :: b :: c :: d :: rest => [a; b; c; d] :: word_groups rest
  | _ => []
  end.

(** A group of four capital letters for every byte value, and the text they
    make for a byte string. *)
Definition letter (n : Z) : char := 65 + n.

Definition group_of_byte (x : byte) : str :=
  [letter (ord_byte x / 64); letter ((ord_byte x mod 64) / 16); letter 0;
   letter (ord_byte x mod 16)].

Definition text_of_bytes (b : bytes) : str := flat_map group_of_byte b.

(** The maps that the search of the field extractor can reach from an
    object: the object itself when it is a map, and the maps reached from
    the values of its entries. *)
Inductive reaches : value -> list (value * value) -> Prop :=
| reaches_here (entries : list (value * value)) :
    reaches (VDict entries) entries
| reaches_inside (entries inner : list (value * value)) (key v : value) :
    In (key, v) entries -> reaches v inner -> reaches (VDict entries) inner.

(** A value the field extractor has no use for: neither text, nor bytes,
    nor a map. *)
Definition is_plain (v : value) : bool :=
  match v with
  | VStr _ | VBytes _ | VDict _ => false
  | _ => true
  end.

(** A runtime in which [cbor2] cannot be imported, or rejects everything:
    [decode_cbor_bytes] returns [None]. *)
Definition demo_runtime_without_cbor : Runtime := {|
  unicode_upper := demo_unicode_upper;
  b32decode := demo_b32decode;
  cbor2_loads := fun _ => None;
  recursion_depth := 996
|}.



(** [{'note': 7, 'items': [{'hex': 'AB'}]}] *)
Definition entries_plain : list (value * value) :=
  [(VStr (py "note"), VInt 7);
   (VStr (py "items"), VList [VDict [text_entry "hex" "AB"]])].

(** [{'outer': {'inner': {'data': b'\x01\xab'}}}] *)
Definition entries_two_deep : list (value * value) :=
  [(VStr (py "outer"),
    VDict [(VStr (py "inner"),
            VDict [(VStr (py "data"), VBytes [x01; xab])])])].

(** * Properties *)

(** A string too short for a chunk, case by case. *)
Ltac short_chunk s Hshort :=
  destruct s as [| ? [| ? [| ? [| ? ?]]]];
  [ | | | | exfalso; cbn in Hshort; lia ].

(** Inverts [Forall] on the four characters of a chunk. *)
Ltac forall_chunk H Ha Hb Hc Hd Hrest :=
  let H1 := fresh in
  let H2 := fresh in
  let H3 := fresh in
  inversion H as [| ? ? Ha H1]; subst;
  inversion H1 as [| ? ? Hb H2]; subst;
  inversion H2 as [| ? ? Hc H3]; subst;
  inversion H3 as [| ? ? Hd Hrest]; subst;
  clear H1 H2 H3.

(** ** Characters and strings *)

(** Induction on a string chunk by chunk, as the word-chunk loop reads it. *)
Lemma chunks_ind (P : str -> Prop) :
  (forall s, (length s < 4)%nat -> P s) ->
  (forall a b c d rest, P rest -> P (a :: b :: c :: d :: rest)) ->
  forall s, P s.
Proof.
  intros Hshort Hchunk. fix IH 1.
  intros [| a [| b [| c [| d rest]]]]; try (apply Hshort; cbn; lia).
  apply Hchunk, IH.
Qed.

Lemma length_chunk (a b c d : char) (rest : str) :
  (length (a :: b :: c :: d :: rest) / 4 = S (length rest / 4))%nat.
Proof.
  change (length (a :: b :: c :: d :: rest)) with (4 + length rest)%nat.
  replace (4 + length rest)%nat with (length rest + 1 * 4)%nat by lia.
  rewrite Nat.div_add by lia. lia.
Qed.

Lemma is_hex_ascii (c : char) : is_hex c = true -> 0 <= c < 128.
Proof.
  unfold is_hex, is_digit, in_range. intros H.
  repeat (apply orb_true_iff in H; destruct H as [H | H]);
    apply andb_true_iff in H; destruct H as [H1 H2];
    apply Z.leb_le in H1, H2; lia.
Qed.

Lemma ascii_upper_hex (c : char) :
  is_hex c = true -> is_upper_hex (ascii_upper c) = true.
Proof.
  unfold is_hex, is_upper_hex, ascii_upper, is_lower_az, is_digit, in_range.
  intros H.
  repeat match goal with
         | |- context [?a <=? ?b] => destruct (Z.leb_spec a b)
         | H : context [?a <=? ?b] |- _ => destruct (Z.leb_spec a b)
         end; simpl in *; try reflexivity; try discriminate; lia.
Qed.

Lemma str_eqb_eq (a b : str) : str_eqb a b = true <-> a = b.
Proof.
  revert b. induction a as [| x a IH]; intros [| y b]; simpl;
    try (split; [discriminate | discriminate]); try tauto.
  rewrite andb_true_iff, Z.eqb_eq, IH. split.
  - intros [-> ->]. reflexivity.
  - intros E. injection E as -> ->. split; reflexivity.
Qed.

Lemma str_eqb_refl (a : str) : str_eqb a a = true.
Proof. apply str_eqb_eq. reflexivity. Qed.

Lemma nonempty_true {A : Type} (l : list A) : nonempty l = true <-> l <> [].
Proof. destruct l; simpl; split; congruence. Qed.

(** What [span] returns: the two parts make up the string, the first is in
    the class throughout and the second does not start in it. *)
Lemma span_spec (p : char -> bool) (s run rest : str) :
  span p s = (run, rest) ->
  s = run ++ rest /\ forallb p run = true /\ stops p rest.
Proof.
  revert run rest. induction s as [| c s IH]; simpl; intros run rest E.
  - injection E as <- <-. simpl. auto.
  - destruct (p c) eqn:Hc.
    + destruct (span p s) as [run' rest'] eqn:Es.
      injection E as <- <-.
      destruct (IH run' rest' eq_refl) as (-> & Hall & Hstop).
      simpl. rewrite Hc, Hall. auto.
    + injection E as <- <-. simpl. auto.
Qed.

Lemma span_app (p : char -> bool) (run rest : str) :
  forallb p run = true -> stops p rest -> span p (run ++ rest) = (run, rest).
Proof.
  intros Hall Hstop. induction run as [| c run IH]; simpl in *.
  - destruct rest as [| c rest]; simpl in *; [reflexivity |].
    rewrite Hstop. reflexivity.
  - apply andb_true_iff in Hall. destruct Hall as [Hc Hall].
    rewrite Hc, (IH Hall). reflexivity.
Qed.

Lemma span_length (p : char -> bool) (s run rest : str) :
  span p s = (run, rest) -> (length run + length rest = length s)%nat.
Proof.
  intros E. apply span_spec in E. destruct E as (-> & _ & _).
  rewrite length_app. reflexivity.
Qed.

(** ** The fallback scanner *)

Lemma close_run_rev (run : str) :
  Spec.close_run (rev run) = if nonempty run then [run] else [].
Proof.
  destruct run as [| c run]; [reflexivity |].
  cbn [nonempty]. destruct (rev (c :: run)) as [| x l] eqn:E.
  - apply (f_equal (@length _)) in E. rewrite length_rev in E. discriminate.
  - unfold Spec.close_run. rewrite <- E, rev_involutive. reflexivity.
Qed.

Lemma runs_from_span (cur s : str) :
  Spec.runs_from cur s =
  Spec.close_run (rev (fst (span is_hex s)) ++ cur)
  ++ Spec.runs_from [] (tl (snd (span is_hex s))).
Proof.
  revert cur. induction s as [| c s IH]; intros cur; simpl.
  - rewrite app_nil_r. reflexivity.
  - destruct (is_hex c) eqn:Hc.
    + rewrite IH. destruct (span is_hex s) as [run rest]. simpl.
      rewrite <- app_assoc. reflexivity.
    + reflexivity.
Qed.

Lemma runs_from_stops (rest : str) :
  stops is_hex rest -> Spec.runs_from [] (tl rest) = Spec.runs_from [] rest.
Proof.
  destruct rest as [| c rest]; simpl; [reflexivity |].
  intros ->. reflexivity.
Qed.

(** The maximal runs of a string are its first run, when there is one,
    followed by the maximal runs of what follows it. *)
Lemma maximal_hex_runs_span (s run rest : str) :
  span is_hex s = (run, rest) ->
  Spec.maximal_hex_runs s =
  (if nonempty run then [run] else []) ++ Spec.maximal_hex_runs rest.
Proof.
  intros E. unfold Spec.maximal_hex_runs. rewrite runs_from_span, E. simpl.
  rewrite app_nil_r, close_run_rev.
  apply span_spec in E. destruct E as (_ & _ & Hstop).
  rewrite (runs_from_stops rest Hstop). reflexivity.
Qed.

Lemma runs_from_gap (gap s : str) :
  Spec.no_hex gap = true ->
  Spec.runs_from [] (gap ++ s) = Spec.runs_from [] s.
Proof.
  induction gap as [| c gap IH]; [reflexivity |].
  unfold Spec.no_hex. cbn [forallb app Spec.runs_from].
  rewrite andb_true_iff, negb_true_iff. intros [-> Hgap].
  exact (IH Hgap).
Qed.

(** The function [Spec.maximal_hex_runs] computes the maximal runs. *)
Lemma maximal_hex_runs_unique (s : str) (runs : list str) :
  Spec.hex_runs_of s runs -> runs = Spec.maximal_hex_runs s.
Proof.
  induction 1 as [gap Hgap | gap run rest runs Hgap Hne Hrun Hstop _ IH].
  - unfold Spec.maximal_hex_runs.
    rewrite <- (app_nil_r gap), (runs_from_gap gap [] Hgap). reflexivity.
  - unfold Spec.maximal_hex_runs. rewrite (runs_from_gap gap _ Hgap).
    fold (Spec.maximal_hex_runs (run ++ rest)).
    rewrite (maximal_hex_runs_span _ run rest (span_app _ _ _ Hrun Hstop)).
    apply nonempty_true in Hne. rewrite Hne, IH. reflexivity.
Qed.

Lemma maximal_hex_runs_are_runs (s : str) :
  Spec.hex_runs_of s (Spec.maximal_hex_runs s).
Proof.
  enough (H : forall n s, (length s <= n)%nat ->
                Spec.hex_runs_of s (Spec.maximal_hex_runs s))
    by (apply (H (length s)); apply Nat.le_refl).
  clear s. induction n as [| n IH]; intros s Hn.
  - destruct s; [| simpl in Hn; lia]. apply Spec.runs_none. reflexivity.
  - destruct (span (fun c => negb (is_hex c)) s) as [gap s1] eqn:Eg.
    apply span_spec in Eg. destruct Eg as (-> & Hgap & Hstart).
    unfold Spec.maximal_hex_runs. rewrite (runs_from_gap gap s1 Hgap).
    destruct s1 as [| c s1].
    + rewrite app_nil_r. apply Spec.runs_none. exact Hgap.
    + cbn [stops] in Hstart. apply negb_false_iff in Hstart.
      destruct (span is_hex (c :: s1)) as [run rest] eqn:Er.
      fold (Spec.maximal_hex_runs (c :: s1)).
      rewrite (maximal_hex_runs_span _ run rest Er).
      pose proof (span_length _ _ _ _ Er) as Hlen.
      pose proof (span_spec _ _ _ _ Er) as (Es & Hrun & Hstop).
      destruct run as [| r run].
      { cbn [span] in Er. rewrite Hstart in Er.
        destruct (span is_hex s1); discriminate. }
      rewrite Es. cbn [nonempty app].
      apply (Spec.runs_next gap (r :: run) rest); try assumption;
        [discriminate |].
      apply IH. rewrite length_app in Hn. cbn [length] in *. lia.
Qed.

Lemma long_runs_span (s run rest : str) :
  span is_hex s = (run, rest) ->
  Spec.long_runs s =
  (if (100 <=? length run)%nat then [run] else []) ++ Spec.long_runs rest.
Proof.
  intros E. unfold Spec.long_runs. rewrite (maximal_hex_runs_span s run rest E).
  rewrite filter_app. f_equal.
  destruct run as [| c run]; simpl; [reflexivity |].
  destruct (Nat.leb_spec 100 (S (length run))); reflexivity.
Qed.

Lemma long_runs_tail (c : char) (s : str) :
  match_hex_run (c :: s) = None -> Spec.long_runs (c :: s) = Spec.long_runs s.
Proof.
  unfold match_hex_run. cbn [span]. destruct (is_hex c) eqn:Hc.
  - destruct (span is_hex s) as [run rest] eqn:E.
    assert (E' : span is_hex (c :: s) = (c :: run, rest))
      by (cbn [span]; rewrite Hc, E; reflexivity).
    destruct (Nat.leb_spec 100 (length (c :: run))) as [| Hlt];
      [discriminate |]. intros _.
    rewrite (long_runs_span _ _ _ E'), (long_runs_span _ _ _ E).
    destruct (Nat.leb_spec 100 (length (c :: run))); [lia |].
    cbn [length] in Hlt.
    destruct (Nat.leb_spec 100 (length run)); [lia |]. reflexivity.
  - intros _. unfold Spec.long_runs, Spec.maximal_hex_runs.
    cbn [Spec.runs_from]. rewrite Hc. reflexivity.
Qed.

(** With a step for every character, [re.findall] returns the maximal runs
    of a hundred hexadecimal digits or more. *)
Lemma findall_steps_long_runs (fuel : nat) (s : str) :
  (length s <= fuel)%nat -> findall_steps fuel s = Spec.long_runs s.
Proof.
  revert s. induction fuel as [| fuel IH]; intros s Hfuel.
  - destruct s; [reflexivity | simpl in Hfuel; lia].
  - destruct s as [| c s]; [reflexivity |].
    cbn [findall_steps].
    destruct (match_hex_run (c :: s)) as [[run rest] |] eqn:Em.
    + unfold match_hex_run in Em.
      destruct (span is_hex (c :: s)) as [run' rest'] eqn:E.
      destruct (Nat.leb_spec 100 (length run')) as [Hlong |]; [| discriminate].
      injection Em as -> ->.
      rewrite (long_runs_span _ _ _ E).
      destruct (Nat.leb_spec 100 (length run)); [| lia].
      apply span_length in E. simpl in *.
      rewrite IH by lia. reflexivity.
    + rewrite (long_runs_tail c s Em). apply IH. simpl in Hfuel. lia.
Qed.

Lemma findall_hex_runs_long_runs (s : str) :
  findall_hex_runs s = Spec.long_runs s.
Proof. apply findall_steps_long_runs. apply Nat.le_refl. Qed.

(** More steps than characters change nothing. *)
Lemma findall_steps_enough (fuel : nat) (s : str) :
  (length s <= fuel)%nat -> findall_steps fuel s = findall_hex_runs s.
Proof.
  intros H. rewrite findall_hex_runs_long_runs.
  apply findall_steps_long_runs, H.
Qed.

Lemma findall_steps_runs (fuel : nat) (s : str) :
  Forall (fun run => forallb is_hex run = true /\ (100 <= length run)%nat)
         (findall_steps fuel s).
Proof.
  revert s. induction fuel as [| fuel IH]; intros s; [constructor |].
  destruct s as [| c s]; [constructor |]. cbn [findall_steps].
  destruct (match_hex_run (c :: s)) as [[run rest] |] eqn:Em; [| apply IH].
  constructor; [| apply IH].
  unfold match_hex_run in Em.
  destruct (span is_hex (c :: s)) as [run' rest'] eqn:E.
  destruct (Nat.leb_spec 100 (length run')); [| discriminate].
  injection Em as -> ->. apply span_spec in E. tauto.
Qed.

(** *** The words of section 4.4 and the code *)

Lemma existsb_eqb_in (c : char) (l : str) :
  existsb (Z.eqb c) l = true <-> In c l.
Proof.
  rewrite existsb_exists. split.
  - intros (x & Hin & Heq). apply Z.eqb_eq in Heq. subst x. exact Hin.
  - intros Hin. exists c. split; [exact Hin | apply Z.eqb_refl].
Qed.

(** The characters 0-9, A-F, a-f are those of the class of the pattern. *)
Lemma is_hex_digit_is_hex (c : char) : Spec.is_hex_digit c = is_hex c.
Proof.
  apply eq_true_iff_eq. unfold Spec.is_hex_digit.
  rewrite existsb_eqb_in. split.
  - intros Hin.
    assert (Hall : forallb is_hex Spec.hex_digit_chars = true)
      by reflexivity.
    rewrite forallb_forall in Hall. exact (Hall c Hin).
  - unfold is_hex, is_digit, in_range. intros H.
    assert (Hc : 48 <= c <= 57 \/ 65 <= c <= 70 \/ 97 <= c <= 102).
    { repeat (apply orb_true_iff in H; destruct H as [H | H]);
        apply andb_true_iff in H; destruct H as [H1 H2];
        apply Z.leb_le in H1, H2; lia. }
    assert (Hcases : c = 48 \/ c = 49 \/ c = 50 \/ c = 51 \/ c = 52
                     \/ c = 53 \/ c = 54 \/ c = 55 \/ c = 56 \/ c = 57
                     \/ c = 65 \/ c = 66 \/ c = 67 \/ c = 68 \/ c = 69
                     \/ c = 70 \/ c = 97 \/ c = 98 \/ c = 99 \/ c = 100
                     \/ c = 101 \/ c = 102) by lia.
    repeat (destruct Hcases as [-> | Hcases];
            [apply existsb_eqb_in; reflexivity |]).
    subst c. apply existsb_eqb_in. reflexivity.
Qed.

Lemma forallb_pointwise (f g : char -> bool) (s : str) :
  (forall c, f c = g c) -> forallb f s = forallb g s.
Proof.
  intros H. induction s as [| c s IH]; [reflexivity |].
  cbn [forallb]. rewrite H, IH. reflexivity.
Qed.

Lemma find_pointwise (f g : str -> bool) (l : list str) :
  (forall x, f x = g x) -> find f l = find g l.
Proof.
  intros H. induction l as [| x l IH]; [reflexivity |].
  cbn [find]. rewrite H, IH. reflexivity.
Qed.

Lemma maximal_runs_hex_runs_of (s : str) (runs : list str) :
  Spec.maximal_runs s runs -> Spec.hex_runs_of s runs.
Proof.
  induction 1 as [gap Hgap | gap run rest runs Hgap Hne Hrun Hstop _ IH].
  - apply Spec.runs_none. unfold Spec.no_hex. rewrite <- Hgap.
    apply forallb_pointwise. intros c. rewrite is_hex_digit_is_hex.
    reflexivity.
  - apply Spec.runs_next; [| exact Hne | | | exact IH].
    + unfold Spec.no_hex. rewrite <- Hgap.
      apply forallb_pointwise. intros c. rewrite is_hex_digit_is_hex.
      reflexivity.
    + rewrite <- Hrun. apply forallb_pointwise. intros c.
      symmetry. apply is_hex_digit_is_hex.
    + destruct rest as [| c rest]; [exact I |]. cbn [stops] in *.
      rewrite <- is_hex_digit_is_hex. exact Hstop.
Qed.

Lemma hex_prefixes_chars :
  hex_prefixes
  = [[49; 50]; [48; 48]; [48; 49]; [48; 50]; [48; 51]; [48; 53]].
Proof. reflexivity. Qed.

(** The prefix test of the code is the test for the six prefixes. *)
Lemma has_prefix_looks_like (run : str) :
  Spec.has_prefix run = looks_like_transaction run.
Proof.
  unfold looks_like_transaction. rewrite hex_prefixes_chars.
  destruct run as [| a [| b run]]; cbn [existsb startswith Spec.has_prefix].
  - reflexivity.
  - rewrite !andb_false_r. reflexivity.
  - unfold Spec.two_char_prefixes. cbn [existsb fst snd].
    rewrite !andb_true_r. reflexivity.
Qed.

(** On a hexadecimal digit character, the upper-case form of the words is
    the one [str.upper] gives. *)
Lemma upper_hex_digit_ascii_upper (c : char) :
  is_hex c = true -> Spec.upper_hex_digit c = ascii_upper c.
Proof.
  intros H. rewrite <- is_hex_digit_is_hex in H.
  apply existsb_eqb_in in H. unfold Spec.hex_digit_chars in H.
  cbn in H.
  repeat (destruct H as [<- | H]; [reflexivity |]). destruct H.
Qed.

(** The class [[0-9A-F]] holds the sixteen upper-case digits and nothing
    else. *)
Lemma is_upper_hex_chars (c : char) :
  is_upper_hex c = true -> In c Spec.upper_hex_digit_chars.
Proof.
  unfold is_upper_hex, is_digit, in_range. intros H.
  assert (Hc : 48 <= c <= 57 \/ 65 <= c <= 70).
  { apply orb_true_iff in H; destruct H as [H | H];
      apply andb_true_iff in H; destruct H as [H1 H2];
      apply Z.leb_le in H1, H2; lia. }
  assert (Hcases : c = 48 \/ c = 49 \/ c = 50 \/ c = 51 \/ c = 52
                   \/ c = 53 \/ c = 54 \/ c = 55 \/ c = 56 \/ c = 57
                   \/ c = 65 \/ c = 66 \/ c = 67 \/ c = 68 \/ c = 69
                   \/ c = 70) by lia.
  cbn. intuition.
Qed.

Section Properties.
Context {R : Runtime}.

(** [str.upper] on ASCII text works character by character. *)
Lemma str_upper_ascii (s : str) :
  Forall (fun c => c < 128) s -> str_upper s = map ascii_upper s.
Proof.
  induction 1 as [| c s Hc _ IH]; [reflexivity |].
  unfold str_upper in *. cbn [flat_map map]. rewrite IH.
  unfold upper_char. destruct (Z.ltb_spec c 128); [reflexivity | lia].
Qed.

Lemma str_upper_hex (s : str) :
  forallb is_hex s = true -> str_upper s = map ascii_upper s.
Proof.
  intros H. apply str_upper_ascii. rewrite forallb_forall in H.
  apply Forall_forall. intros c Hc. apply is_hex_ascii. auto.
Qed.

Lemma first_transaction_find (hex_matches : list str) :
  Forall (fun run => forallb is_hex run = true) hex_matches ->
  first_transaction hex_matches =
  option_map (map ascii_upper) (find looks_like_transaction hex_matches).
Proof.
  induction 1 as [| m more Hm _ IH]; [reflexivity |].
  cbn [first_transaction find].
  destruct (looks_like_transaction m); [| exact IH].
  cbn [option_map]. rewrite (str_upper_hex m Hm). reflexivity.
Qed.

(** ** C4 *)

(** The code of the fallback scanner, the regular expression search
    followed by the prefix test, computes the procedure of section 4.4. *)
Lemma scan_fallback_scanFallback (text : str) :
  scan_fallback text = Spec.scanFallback text.
Proof.
  unfold scan_fallback, Spec.scanFallback.
  rewrite <- findall_hex_runs_long_runs.
  apply first_transaction_find.
  unfold findall_hex_runs.
  eapply Forall_impl; [| apply findall_steps_runs].
  intros run [H _]. exact H.
Qed.

(** C4. For every string the fallback scanner is applied to, with [runs]
    its maximal runs of hexadecimal digit characters (0-9, A-F, a-f) in
    order of appearance: among the runs of 100 characters or more, the
    scanner returns the first that begins with one of the two-character
    prefixes 12, 00, 01, 02, 03, 05, upper-cased, and none when no run
    qualifies. *)
Theorem scan_fallback_meets_spec (text : str) (runs : list str) :
  Spec.maximal_runs text runs ->
  scan_fallback text
  = option_map (map Spec.upper_hex_digit)
      (find Spec.has_prefix
         (filter (fun run => (100 <=? length run)%nat) runs)).
Proof.
  intros Hruns.
  apply maximal_runs_hex_runs_of, maximal_hex_runs_unique in Hruns.
  subst runs. rewrite scan_fallback_scanFallback. unfold Spec.scanFallback.
  fold (Spec.long_runs text).
  rewrite (find_pointwise _ _ (Spec.long_runs text) has_prefix_looks_like).
  destruct (find looks_like_transaction (Spec.long_runs text))
    as [run |] eqn:Ef; [| reflexivity].
  cbn [option_map]. f_equal. apply find_some in Ef. destruct Ef as [Hin _].
  rewrite <- findall_hex_runs_long_runs in Hin.
  pose proof (findall_steps_runs (length text) text) as Hhex.
  rewrite Forall_forall in Hhex. destruct (Hhex run Hin) as [Hrun _].
  apply map_ext_in. intros c Hc. symmetry. apply upper_hex_digit_ascii_upper.
  rewrite forallb_forall in Hrun. exact (Hrun c Hc).
Qed.

End Properties.

(** ** The word-chunk decoder *)

Lemma char_val_ascii_upper (c : char) :
  char_val (ascii_upper c) = Spec.digit_value c.
Proof.
  unfold char_val, Spec.digit_value, ascii_upper, is_upper_AZ, is_lower_az,
    is_digit, in_range.
  destruct (Z.leb_spec 97 c); destruct (Z.leb_spec c 122); cbn [andb];
    repeat match goal with
           | |- context [?a <=? ?b] => destruct (Z.leb_spec a b)
           end; simpl; lia.
Qed.


Lemma append_byte_int (z : Z) :
  0 <= z < 256 -> exists b, append_byte (PyInt z) = Ok b /\ ord_byte b = z.
Proof.
  intros Hz. unfold append_byte.
  destruct (Z.leb_spec 0 z); [| lia]. destruct (Z.ltb_spec z 256); [| lia].
  cbn [andb]. destruct (Byte.of_N (Z.to_N z)) as [b |] eqn:E.
  - exists b. split; [reflexivity |]. unfold ord_byte.
    apply Byte.to_of_N in E. rewrite E. lia.
  - apply Byte.of_N_None_iff in E. lia.
Qed.

(** A [float], once there, stays. *)
Lemma chunk_value_float (j : Z) (chunk : str) :
  chunk_value j PyFloat chunk = PyFloat.
Proof.
  revert j. induction chunk as [| c chunk IH]; intros j; [reflexivity |].
  cbn [chunk_value]. unfold accumulate. apply IH.
Qed.

(** Reading a chunk from index [j] with an [int] in hand ends in a [float]
    exactly when the chunk reaches beyond index 3. *)
Lemma chunk_value_beyond (j b : Z) (chunk : str) :
  0 <= j <= 4 -> 4 < j + Z.of_nat (length chunk) ->
  chunk_value j (PyInt b) chunk = PyFloat.
Proof.
  revert j b. induction chunk as [| c chunk IH]; intros j b Hj Hlen.
  - simpl in Hlen. lia.
  - cbn [chunk_value]. unfold accumulate, pow36.
    destruct (Z.leb_spec 0 (3 - j)).
    + apply IH; [lia |]. cbn [length] in Hlen. lia.
    + apply chunk_value_float.
Qed.

(** The value of a chunk of four characters. *)
Lemma chunk_value_four (a b c d : char) :
  chunk_value 0 (PyInt 0) [a; b; c; d]
  = PyInt (Spec.group_byte char_val a b c d).
Proof.
  cbn [chunk_value]. unfold accumulate, pow36.
  change (0 <=? 3 - 0) with true. change (0 <=? 3 - (0 + 1)) with true.
  change (0 <=? 3 - (0 + 1 + 1)) with true.
  change (0 <=? 3 - (0 + 1 + 1 + 1)) with true. cbv iota.
  unfold Spec.group_byte.
  change (3 - 0) with 3. change (3 - (0 + 1)) with 2.
  change (3 - (0 + 1 + 1)) with 1. change (3 - (0 + 1 + 1 + 1)) with 0.
  rewrite Z.add_0_l. f_equal.
  rewrite Zplus_mod_idemp_l, <- Z.add_assoc, Zplus_mod_idemp_l.
  rewrite <- Z.add_assoc, Zplus_mod_idemp_l. f_equal. ring.
Qed.

Lemma group_byte_range (digit : char -> Z) (a b c d : char) :
  0 <= Spec.group_byte digit a b c d < 256.
Proof. unfold Spec.group_byte. apply Z.mod_pos_bound. lia. Qed.

Lemma word_chunks_ext (f g : char -> Z) (s : str) :
  Forall (fun c => f c = g c) s -> Spec.word_chunks f s = Spec.word_chunks g s.
Proof.
  induction s as [s Hshort | a b c d rest IH] using chunks_ind; intros Hs.
  - short_chunk s Hshort; reflexivity.
  - forall_chunk Hs Ha Hb Hc Hd Hrest.
    cbn [Spec.word_chunks]. unfold Spec.group_byte.
    rewrite Ha, Hb, Hc, Hd, (IH Hrest). reflexivity.
Qed.

Lemma word_chunks_length (digit : char -> Z) (s : str) :
  length (Spec.word_chunks digit s) = (length s / 4)%nat.
Proof.
  induction s as [s Hshort | a b c d rest IH] using chunks_ind.
  - short_chunk s Hshort; reflexivity.
  - rewrite length_chunk, <- IH. reflexivity.
Qed.

Lemma word_chunks_range (digit : char -> Z) (s : str) :
  Forall (fun x => 0 <= x <= 255) (Spec.word_chunks digit s).
Proof.
  induction s as [s Hshort | a b c d rest IH] using chunks_ind.
  - short_chunk s Hshort; constructor.
  - constructor; [| exact IH].
    pose proof (group_byte_range digit a b c d). lia.
Qed.

(** The byte at position [i] comes from the characters at positions [4i]
    to [4i+3]. *)
Lemma word_chunks_nth (digit : char -> Z) (s : str) (i : nat) :
  (i < length s / 4)%nat ->
  nth i (Spec.word_chunks digit s) 0 =
  Spec.group_byte digit (nth (4 * i) s 0) (nth (4 * i + 1) s 0)
                  (nth (4 * i + 2) s 0) (nth (4 * i + 3) s 0).
Proof.
  revert i. induction s as [s Hshort | a b c d rest IH] using chunks_ind;
    intros i Hi.
  - rewrite Nat.div_small in Hi by exact Hshort. lia.
  - rewrite length_chunk in Hi. destruct i as [| i]; [reflexivity |].
    cbn [Spec.word_chunks nth]. rewrite (IH i) by lia.
    replace (4 * S i)%nat with (S (S (S (S (4 * i))))) by lia.
    reflexivity.
Qed.

Section Bytewords.
Context {R : Runtime}.

(** A chunk whose upper-case form has more than four characters stops the
    decoder with a [TypeError]: the fifth weight is [36 ** -1]. *)
Lemma decode_keystone_bytewords_long_chunk (a b c d : char) (rest : str) :
  (4 < length (str_upper [a; b; c; d]))%nat ->
  decode_keystone_bytewords (a :: b :: c :: d :: rest) = Raise TypeError.
Proof.
  intros Hlen. cbn [decode_keystone_bytewords].
  rewrite chunk_value_beyond; [reflexivity | lia |].
  apply inj_lt in Hlen. exact Hlen.
Qed.

Lemma upper_char_single (c : char) :
  length (upper_char c) = 1%nat -> upper_char c = [upper_form c].
Proof.
  unfold upper_form. destruct (upper_char c) as [| u [| v l]];
    try discriminate. reflexivity.
Qed.

Lemma upper_form_ascii (c : char) : c < 128 -> upper_form c = ascii_upper c.
Proof.
  intros Hc. unfold upper_form, upper_char.
  destruct (Z.ltb_spec c 128); [reflexivity | lia].
Qed.

Lemma upper_char_ascii (c : char) : c < 128 -> length (upper_char c) = 1%nat.
Proof.
  intros Hc. unfold upper_char.
  destruct (Z.ltb_spec c 128); [reflexivity | lia].
Qed.

(** Where every character has a one-character upper-case form, the decoder
    returns, and its bytes are the bytes of the groups of four with every
    character read as the digit of its upper-case form. *)
Lemma decode_keystone_bytewords_single (data : str) :
  Forall (fun c => length (upper_char c) = 1%nat) data ->
  exists decoded,
    decode_keystone_bytewords data = Ok decoded
    /\ map ord_byte decoded
       = Spec.word_chunks (fun c => char_val (upper_form c)) data.
Proof.
  induction data as [data Hshort | a b c d rest IH] using chunks_ind;
    intros Hsingle.
  - exists []. short_chunk data Hshort; split; reflexivity.
  - forall_chunk Hsingle Ha Hb Hc Hd Hrest.
    cbn [decode_keystone_bytewords Spec.word_chunks].
    unfold str_upper. cbn [flat_map].
    rewrite (upper_char_single a Ha), (upper_char_single b Hb),
      (upper_char_single c Hc), (upper_char_single d Hd).
    cbn [app]. rewrite chunk_value_four.
    destruct (append_byte_int
                (Spec.group_byte char_val (upper_form a) (upper_form b)
                                 (upper_form c) (upper_form d)))
      as (x & -> & Hx); [apply group_byte_range |].
    destruct (IH Hrest) as (xs & -> & Hxs).
    exists (x :: xs). split; [reflexivity |].
    cbn [map]. rewrite Hx, Hxs. reflexivity.
Qed.

(** On ASCII text the decoder returns, and its bytes are those of the
    specification. *)
Lemma decode_keystone_bytewords_ascii (data : str) :
  Forall (fun c => c < 128) data ->
  exists decoded,
    decode_keystone_bytewords data = Ok decoded
    /\ map ord_byte decoded = Spec.word_chunks Spec.digit_value data.
Proof.
  intros Hascii.
  destruct (decode_keystone_bytewords_single data) as (decoded & E & Hbytes).
  { eapply Forall_impl; [| exact Hascii]. apply upper_char_ascii. }
  exists decoded. split; [exact E |]. rewrite Hbytes.
  apply word_chunks_ext. eapply Forall_impl; [| exact Hascii].
  intros c Hc. cbv beta. rewrite (upper_form_ascii c Hc).
  apply char_val_ascii_upper.
Qed.

End Bytewords.

(** ** The field extractor *)

(** Induction on objects, with the values of a [dict] as the parts. *)
Lemma value_dict_ind (P : value -> Prop) :
  (forall entries,
      Forall (fun kv => P (snd kv)) entries -> P (VDict entries)) ->
  (forall v, is_dict v = false -> P v) ->
  forall v, P v.
Proof.
  intros Hdict Hother. fix IH 1.
  intros [entries | | | | | | |]; try (apply Hother; reflexivity).
  apply Hdict. induction entries as [| [k x] entries IHe]; constructor.
  - apply IH.
  - exact IHe.
Qed.

Lemma hex_digit_hex (n : Z) : 0 <= n < 16 -> is_hex (hex_digit n) = true.
Proof.
  intros Hn. unfold is_hex, hex_digit, is_digit, in_range.
  destruct (Z.ltb_spec n 10);
    repeat match goal with
           | |- context [?a <=? ?b] => destruct (Z.leb_spec a b)
           end; simpl; try reflexivity; lia.
Qed.

Lemma ord_byte_range (x : byte) : 0 <= ord_byte x < 256.
Proof.
  unfold ord_byte. pose proof (Byte.to_N_bounded x). lia.
Qed.

Lemma bytes_hex_is_hex (b : bytes) : forallb is_hex (bytes_hex b) = true.
Proof.
  induction b as [| x b IH]; [reflexivity |].
  unfold bytes_hex in *. cbn [flat_map app forallb]. rewrite IH.
  pose proof (ord_byte_range x) as Hx.
  rewrite !hex_digit_hex; [reflexivity | |].
  - apply Z.mod_pos_bound. lia.
  - split; [apply Z.div_pos; lia | apply Z.div_lt_upper_bound; lia].
Qed.

Lemma bytes_hex_length (b : bytes) :
  length (bytes_hex b) = (2 * length b)%nat.
Proof.
  induction b as [| x b IH]; [reflexivity |].
  unfold bytes_hex in *. cbn [flat_map app length]. rewrite IH. lia.
Qed.

Lemma forallb_upper_hex (run : str) :
  forallb is_hex run = true ->
  forallb is_upper_hex (map ascii_upper run) = true.
Proof.
  induction run as [| c run IH]; [reflexivity |]. cbn [forallb map].
  rewrite andb_true_iff. intros [Hc Hrun].
  rewrite (ascii_upper_hex c Hc), (IH Hrun). reflexivity.
Qed.

Lemma match_hex_text_inv (s : str) :
  match_hex_text s = true ->
  exists run rest,
    s = run ++ rest /\ forallb is_hex run = true /\ run <> []
    /\ line_end rest.
Proof.
  unfold match_hex_text. destruct (span is_hex s) as [run rest] eqn:E.
  apply span_spec in E. destruct E as (-> & Hall & _).
  rewrite andb_true_iff, nonempty_true. intros [Hne Hend].
  exists run, rest. repeat split; try assumption.
  destruct rest as [| c [| c' rest]]; [left; reflexivity | | discriminate].
  apply Z.eqb_eq in Hend. subst c. right. reflexivity.
Qed.

Lemma match_upper_hex_text_intro (run rest : str) :
  forallb is_upper_hex run = true -> run <> [] -> line_end rest ->
  match_upper_hex_text (run ++ rest) = true.
Proof.
  intros Hall Hne Hend. unfold match_upper_hex_text.
  rewrite span_app; [| exact Hall | destruct Hend as [-> | ->]; reflexivity].
  apply nonempty_true in Hne. rewrite Hne.
  destruct Hend as [-> | ->]; reflexivity.
Qed.

Lemma match_upper_hex_text_inv (s : str) :
  match_upper_hex_text s = true ->
  exists run rest,
    s = run ++ rest /\ forallb is_upper_hex run = true /\ run <> []
    /\ line_end rest.
Proof.
  unfold match_upper_hex_text.
  destruct (span is_upper_hex s) as [run rest] eqn:E.
  apply span_spec in E. destruct E as (-> & Hall & _).
  rewrite andb_true_iff, nonempty_true. intros [Hne Hend].
  exists run, rest. repeat split; try assumption.
  destruct rest as [| c [| c' rest]]; [left; reflexivity | | discriminate].
  apply Z.eqb_eq in Hend. subst c. right. reflexivity.
Qed.

Section Extractor.
Context {R : Runtime}.

Lemma field_blob_absent (entries : list (value * value)) (field : str) :
  Spec.is_present entries field = false -> field_blob entries field = None.
Proof.
  unfold Spec.is_present, field_blob.
  destruct (dict_get entries field); [discriminate | reflexivity].
Qed.

(** What the loop over the field names returns was returned for one of the
    names. *)
Lemma scan_fields_some (entries : list (value * value)) (fields : list str)
      (blob : str) :
  scan_fields entries fields = Some blob ->
  exists field, In field fields /\ field_blob entries field = Some blob.
Proof.
  induction fields as [| g more IH]; [discriminate |]. cbn [scan_fields].
  destruct (field_blob entries g) as [b |] eqn:Eg.
  - intros [= ->]. exists g. split; [left; reflexivity | exact Eg].
  - intros H. destruct (IH H) as (f & Hin & Hf).
    exists f. split; [right; exact Hin | exact Hf].
Qed.


(** The loop goes past a name whose value does not qualify, whether the
    name is absent or present with a value of the wrong shape. *)
Lemma scan_fields_after (entries : list (value * value)) (fields : list str)
      (field : str) :
  find (Spec.is_present entries) fields = Some field ->
  field_blob entries field = None ->
  scan_fields entries fields
  = scan_fields entries (Spec.fields_after field fields).
Proof.
  intros Hfind Hwrong. induction fields as [| g more IH]; [discriminate |].
  cbn [find] in Hfind. cbn [scan_fields Spec.fields_after].
  destruct (Spec.is_present entries g) eqn:Hg.
  - injection Hfind as ->. rewrite Hwrong, str_eqb_refl. reflexivity.
  - rewrite (field_blob_absent entries g Hg).
    destruct (str_eqb g field) eqn:E; [| exact (IH Hfind)].
    apply str_eqb_eq in E. subst g. apply find_some in Hfind.
    destruct Hfind as [_ Hpresent]. congruence.
Qed.

(** The loop returns at the first name that is present when its value
    qualifies. *)
Lemma scan_fields_first_present (entries : list (value * value))
      (fields : list str) (field blob : str) :
  find (Spec.is_present entries) fields = Some field ->
  field_blob entries field = Some blob ->
  scan_fields entries fields = Some blob.
Proof.
  intros Hfind Hblob. induction fields as [| g more IH]; [discriminate |].
  cbn [find] in Hfind. cbn [scan_fields].
  destruct (Spec.is_present entries g) eqn:Hg.
  - injection Hfind as ->. rewrite Hblob. reflexivity.
  - rewrite (field_blob_absent entries g Hg). exact (IH Hfind).
Qed.

(** What the search of the nested maps returns is a non-empty result of the
    recursive call on one of the values. *)
Lemma scan_nested_some (self : value -> option str)
      (entries : list (value * value)) (blob : str) :
  scan_nested self entries = Some blob ->
  exists kv, In kv entries /\ self (snd kv) = Some blob /\ blob <> [].
Proof.
  induction entries as [| [k x] entries IH]; [discriminate |].
  cbn [scan_nested].
  assert (Hnext : scan_nested self entries = Some blob ->
                  exists kv, In kv ((k, x) :: entries)
                             /\ self (snd kv) = Some blob /\ blob <> []).
  { intros H. destruct (IH H) as (kv & Hin & Hkv).
    exists kv. split; [right; exact Hin | exact Hkv]. }
  destruct x; try exact Hnext.
  destruct (self (VDict entries0)) as [result |] eqn:Es; [| exact Hnext].
  destruct (nonempty result) eqn:Hne; [| exact Hnext].
  intros [= ->]. exists (k, VDict entries0).
  split; [left; reflexivity |]. split; [exact Es |].
  apply nonempty_true. exact Hne.
Qed.

(** A blob taken from a field is accepted by [^[0-9A-F]+$] unless it is
    empty. *)
Lemma field_blob_shape (entries : list (value * value)) (field blob : str) :
  field_blob entries field = Some blob -> blob <> [] ->
  match_upper_hex_text blob = true.
Proof.
  unfold field_blob.
  destruct (dict_get entries field) as [[| | value | value | | | |] |];
    try discriminate.
  - destruct (match_hex_text value) eqn:Hm; [| discriminate].
    intros [= <-] _.
    destruct (match_hex_text_inv value Hm)
      as (run & rest & -> & Hall & Hne & Hend).
    rewrite str_upper_ascii.
    + rewrite map_app.
      replace (map ascii_upper rest) with rest
        by (destruct Hend as [-> | ->]; reflexivity).
      apply match_upper_hex_text_intro; [| | exact Hend].
      * apply forallb_upper_hex, Hall.
      * destruct run; [congruence | discriminate].
    + apply Forall_app. split.
      * apply Forall_forall. intros c Hc. apply is_hex_ascii.
        rewrite forallb_forall in Hall. auto.
      * destruct Hend as [-> | ->]; repeat constructor.
  - intros [= <-] Hne.
    rewrite str_upper_hex in * by apply bytes_hex_is_hex.
    rewrite <- (app_nil_r (map _ _)).
    apply match_upper_hex_text_intro; [| exact Hne | left; reflexivity].
    apply forallb_upper_hex, bytes_hex_is_hex.
Qed.

(** A blob taken from a [bytes] value has two digits for every byte. *)
Lemma field_blob_bytes_length (entries : list (value * value))
      (field : str) (value : bytes) :
  dict_get entries field = Some (VBytes value) ->
  exists blob, field_blob entries field = Some blob
               /\ length blob = (2 * length value)%nat.
Proof.
  intros E. unfold field_blob. rewrite E. eexists. split; [reflexivity |].
  rewrite str_upper_hex by apply bytes_hex_is_hex.
  rewrite length_map. apply bytes_hex_length.
Qed.

Lemma extract_xrpl_transaction_shape (v : value) (blob : str) :
  extract_xrpl_transaction v = Some blob -> blob <> [] ->
  match_upper_hex_text blob = true.
Proof.
  revert blob. induction v as [entries IH | v Hv] using value_dict_ind;
    intros blob.
  - cbn [extract_xrpl_transaction].
    destruct (scan_fields entries possible_fields) as [b |] eqn:Es.
    + intros [= ->]. apply scan_fields_some in Es.
      destruct Es as (f & _ & Hf). exact (field_blob_shape _ _ _ Hf).
    + intros Hn. apply scan_nested_some in Hn.
      destruct Hn as (kv & Hin & Hkv & Hne). intros _.
      rewrite Forall_forall in IH. exact (IH kv Hin blob Hkv Hne).
  - destruct v; try discriminate Hv; discriminate.
Qed.

(** *** A call under the recursion limit *)



Lemma scan_nested_call_returns (call : value -> result (option str))
      (entries : list (value * value)) (r : option str) :
  (forall kv r', In kv entries -> call (snd kv) = Ok r' ->
                 r' = extract_xrpl_transaction (snd kv)) ->
  scan_nested_call call entries = Ok r ->
  r = scan_nested extract_xrpl_transaction entries.
Proof.
  induction entries as [| [k x] entries IH]; intros Hcall.
  - intros [= <-]. reflexivity.
  - cbn [scan_nested_call scan_nested].
    assert (Hrest : scan_nested_call call entries = Ok r ->
                    r = scan_nested extract_xrpl_transaction entries)
      by (apply IH; intros kv r' Hin; apply Hcall; right; exact Hin).
    destruct x; try exact Hrest.
    destruct (call (VDict entries0)) as [r' | e] eqn:Ec; [| discriminate].
    pose proof (Hcall (k, VDict entries0) r' (or_introl eq_refl) Ec) as Hr.
    cbn [snd] in Hr. rewrite <- Hr.
    destruct r' as [result |]; [| exact Hrest].
    destruct (nonempty result); [| exact Hrest].
    intros [= <-]. reflexivity.
Qed.

(** When the call returns, it returns what the function returns for the
    object. *)
Lemma extract_call_returns (frames : nat) (v : value) (r : option str) :
  extract_xrpl_transaction_call frames v = Ok r ->
  r = extract_xrpl_transaction v.
Proof.
  revert v r. induction frames as [| frames IH]; intros v r; [discriminate |].
  cbn [extract_xrpl_transaction_call].
  destruct v; try (intros [= <-]; reflexivity).
  cbn [extract_xrpl_transaction].
  destruct (scan_fields entries possible_fields);
    [intros [= <-]; reflexivity |].
  apply scan_nested_call_returns. intros kv r' _. apply IH.
Qed.





End Extractor.

Section ExtractorClaims.
Context {R : Runtime}.

(** ** C1 *)

(** C1, amended.  For every map whose first-present priority field holds a
    value of the wrong shape (not hexadecimal text and not bytes), the field
    extractor goes on to the field names that come after it in the priority
    list and returns the first of them that qualifies; it proceeds to the
    search of the nested maps only when none of them does. *)
Theorem extract_tries_later_fields (entries : list (value * value))
        (field : str) :
  Spec.first_present entries = Some field ->
  field_blob entries field = None ->
  extract_xrpl_transaction (VDict entries)
  = match scan_fields entries (Spec.fields_after field possible_fields) with
    | Some blob => Some blob
    | None => scan_nested extract_xrpl_transaction entries
    end.
Proof.
  intros Hfirst Hwrong. cbn [extract_xrpl_transaction].
  rewrite (scan_fields_after entries possible_fields field Hfirst Hwrong).
  reflexivity.
Qed.

(** ** C2 *)

(** C2. For the map that holds the key signature with the value "zz" and
    the key txBlob with the value "1122", in either order of the two
    entries, the field extractor returns "1122". *)
Theorem extract_signature_txBlob :
  extract_xrpl_transaction (VDict entries_signature_txBlob)
  = Some (py "1122")
  /\ extract_xrpl_transaction (VDict entries_txBlob_signature)
     = Some (py "1122").
Proof. split; reflexivity. Qed.

(** ** C8 *)

(** C8. For the map {"other": {"hex": "AABB"}} no priority field is found
    at the top level, the search of the nested maps reaches the inner map,
    and the field extractor returns "AABB". *)
Theorem extract_other_hex :
  scan_fields entries_other_hex possible_fields = None
  /\ scan_nested extract_xrpl_transaction entries_other_hex
     = Some (py "AABB")
  /\ extract_xrpl_transaction (VDict entries_other_hex) = Some (py "AABB").
Proof. repeat split; reflexivity. Qed.

End ExtractorClaims.

(** ** The orchestrator *)

Lemma ur_prefix_chars : ur_prefix = [85; 82; 58; 66; 89; 84; 69; 83; 47].
Proof. reflexivity. Qed.

Lemma startswith_app (p s : str) : startswith p (p ++ s) = true.
Proof.
  induction p as [| c p IH]; [reflexivity |].
  simpl. rewrite Z.eqb_refl, IH. reflexivity.
Qed.

Lemma strip_prefix_app (s : str) : strip_prefix (ur_prefix ++ s) = s.
Proof.
  unfold strip_prefix. rewrite startswith_app, ur_prefix_chars. reflexivity.
Qed.

Lemma strip_prefix_other (s : str) :
  startswith ur_prefix s = false -> strip_prefix s = s.
Proof. unfold strip_prefix. intros ->. reflexivity. Qed.


Section Orchestrator.
Context {R : Runtime}.

(** With an [int] in [range(256)] in hand, a chunk is read to such an [int]
    or to a [float]. *)
Lemma chunk_value_cases (chunk : str) (j b : Z) :
  0 <= b < 256 ->
  chunk_value j (PyInt b) chunk = PyFloat
  \/ exists z, chunk_value j (PyInt b) chunk = PyInt z /\ 0 <= z < 256.
Proof.
  revert j b. induction chunk as [| c chunk IH]; intros j b Hb.
  - right. exists b. split; [reflexivity | exact Hb].
  - cbn [chunk_value]. unfold accumulate, pow36.
    destruct (0 <=? 3 - j).
    + apply IH. apply Z.mod_pos_bound. lia.
    + left. apply chunk_value_float.
Qed.


(** A chunk that starts with 'ß' stops the decoder, where the upper-case
    form of 'ß' is 'SS'. *)
Lemma sharp_s_raises (rest : str) :
  unicode_upper 223 = py "SS" ->
  decode_keystone_bytewords (223 :: 65 :: 65 :: 65 :: rest) = Raise TypeError.
Proof.
  intros Hupper. apply decode_keystone_bytewords_long_chunk.
  unfold str_upper. cbn [flat_map]. unfold upper_char at 1.
  change (223 <? 128) with false. cbv iota. rewrite Hupper.
  rewrite !length_app. cbn. lia.
Qed.

(** When it returns, the word-chunk decoder returns one byte for every four
    characters. *)
Lemma decode_keystone_bytewords_length (data : str) (decoded : bytes) :
  decode_keystone_bytewords data = Ok decoded ->
  length decoded = (length data / 4)%nat.
Proof.
  revert decoded.
  induction data as [data Hshort | a b c d rest IH] using chunks_ind;
    intros decoded.
  - rewrite Nat.div_small by exact Hshort.
    short_chunk data Hshort; intros [= <-]; reflexivity.
  - cbn [decode_keystone_bytewords].
    destruct (append_byte _) as [x | e]; cbn [bind]; [| discriminate].
    destruct (decode_keystone_bytewords rest) as [xs | e];
      cbn [bind]; [| discriminate].
    intros [= <-]. rewrite length_chunk. cbn [length].
    rewrite (IH xs eq_refl). reflexivity.
Qed.

(** The two alphabets have the same length, as [str.maketrans] asks of its
    arguments, and the table is the same for every runtime. *)
Lemma translation_table :
  length (str_upper alphabet) = length standard_alphabet
  /\ translation
     = combine (py "023456789ACDEFGHJKLMNPQRSTUVWXYZ") standard_alphabet.
Proof. split; reflexivity. Qed.

(** When [b32decode] accepts none of the eight paddings, the base-32
    fallback returns the empty byte string. *)
Lemma try_paddings_rejected (translated : str) (paddings : list nat) :
  (forall padding, In padding paddings ->
                   b32decode (translated ++ repeat 61 padding) = None) ->
  try_paddings translated paddings = [].
Proof.
  induction paddings as [| padding more IH]; [reflexivity |]. intros H.
  cbn [try_paddings]. rewrite (H padding) by (left; reflexivity).
  apply IH. intros q Hq. apply H. right. exact Hq.
Qed.

Lemma base32_fallback_rejected (data : str) :
  (forall padding, (padding < 8)%nat ->
     b32decode (translate translation (str_upper data) ++ repeat 61 padding)
     = None) ->
  base32_fallback data = [].
Proof.
  intros H. apply try_paddings_rejected. intros padding Hin.
  apply H. apply in_seq in Hin. lia.
Qed.

(** The text-to-bytes decoder takes the word-chunk result whenever the text
    has more than ten characters. *)
Lemma decode_base32_alphabet_long (data : str) :
  (10 < length data)%nat ->
  decode_base32_alphabet data = decode_keystone_bytewords data.
Proof.
  intros Hlen. unfold decode_base32_alphabet.
  destruct (Nat.ltb_spec 10 (length data)); [| lia].
  destruct (decode_keystone_bytewords data) as [decoded | e] eqn:E;
    [| reflexivity].
  cbn [bind]. apply decode_keystone_bytewords_length in E.
  destruct decoded as [| x xs]; [| reflexivity].
  cbn [length] in E. symmetry in E. apply Nat.div_small_iff in E; lia.
Qed.

Lemma decode_base32_alphabet_short (data : str) :
  (length data <= 10)%nat ->
  decode_base32_alphabet data = Ok (base32_fallback data).
Proof.
  intros Hlen. unfold decode_base32_alphabet.
  destruct (Nat.ltb_spec 10 (length data)); [lia | reflexivity].
Qed.




(** What the loop over the matches returns is the upper-case form of one of
    them. *)
Lemma first_transaction_some (hex_matches : list str) (blob : str) :
  first_transaction hex_matches = Some blob ->
  exists m, In m hex_matches /\ blob = str_upper m.
Proof.
  induction hex_matches as [| m more IH]; [discriminate |].
  cbn [first_transaction]. destruct (looks_like_transaction m).
  - intros [= <-]. exists m. split; [left; reflexivity | reflexivity].
  - intros H. destruct (IH H) as (m' & Hin & Hm').
    exists m'. split; [right; exact Hin | exact Hm'].
Qed.

(** A blob of the fallback scanner is a hundred or more upper-case
    hexadecimal digits. *)
Lemma scan_fallback_shape (text blob : str) :
  scan_fallback text = Some blob ->
  forallb is_upper_hex blob = true /\ (100 <= length blob)%nat.
Proof.
  unfold scan_fallback, findall_hex_runs. intros H.
  apply first_transaction_some in H. destruct H as (m & Hin & ->).
  pose proof (findall_steps_runs (length text) text) as Hruns.
  rewrite Forall_forall in Hruns. destruct (Hruns m Hin) as [Hhex Hlen].
  rewrite (str_upper_hex m Hhex), length_map.
  split; [apply forallb_upper_hex, Hhex | exact Hlen].
Qed.

(** A blob of method 1 is a non-empty result of the field extractor on the
    object that [cbor2] gave. *)
Lemma method1_returns (decoded : bytes) (blob : str) :
  method1 decoded = Ok (Some blob) ->
  exists cbor_data,
    decode_cbor_bytes decoded = Some cbor_data
    /\ extract_xrpl_transaction cbor_data = Some blob /\ blob <> [].
Proof.
  unfold method1. destruct (nonempty decoded); [| discriminate].
  destruct (decode_cbor_bytes decoded) as [cbor_data |]; [| discriminate].
  destruct (truthy cbor_data); [| discriminate].
  destruct (extract_xrpl_transaction_call (S recursion_depth) cbor_data)
    as [[b |] | e] eqn:Ec; cbn [bind]; try discriminate.
  destruct (nonempty b) eqn:Hne; [| discriminate].
  intros [= ->]. exists cbor_data. split; [reflexivity |].
  apply extract_call_returns in Ec. split; [symmetry; exact Ec |].
  apply nonempty_true, Hne.
Qed.

(** What the orchestrator returns comes from the field extractor, and is
    not empty, or from the fallback scanner. *)
Lemma decode_keystone_ur_source (ur_data blob : str) :
  decode_keystone_ur ur_data = Ok (Some blob) ->
  (exists v, extract_xrpl_transaction v = Some blob /\ blob <> [])
  \/ scan_fallback (strip_prefix ur_data) = Some blob.
Proof.
  unfold decode_keystone_ur.
  destruct (decode_base32_alphabet (strip_prefix ur_data)) as [decoded | e];
    cbn [bind]; [| discriminate].
  destruct (method1 decoded) as [[tx_blob |] | e] eqn:Em; cbn [bind];
    [| | discriminate].
  - intros [= ->]. left. apply method1_returns in Em.
    destruct Em as (cbor_data & _ & Hx & Hne). exists cbor_data. tauto.
  - intros [= H]. right. exact H.
Qed.

End Orchestrator.

Section Claims.
Context {R : Runtime}.

(** ** C3 *)

(** C3, amended.  Every non-empty blob the system produces, whether it is
    returned by the field extractor, by the fallback scanner or by the
    orchestrator, and that does not end in a line feed (as the blob of a
    Text value that ends in one does), matches ^[0-9A-F]+$: it is made of
    the characters 0-9 and A-F only, one at least.  Nothing is said of
    the parity of its length. *)
Theorem blob_upper_hex_digits (v : value) (text ur_data blob : str) :
  (extract_xrpl_transaction v = Some blob /\ blob <> [])
  \/ scan_fallback text = Some blob
  \/ decode_keystone_ur ur_data = Ok (Some blob) ->
  last blob 0 <> 10 ->
  blob <> [] /\ Forall (fun c => In c Spec.upper_hex_digit_chars) blob.
Proof.
  intros Hsource Hlast.
  assert (Hmatch : match_upper_hex_text blob = true).
  { assert (Hscan : forall t, scan_fallback t = Some blob ->
                              match_upper_hex_text blob = true).
    { intros t H. apply scan_fallback_shape in H. destruct H as [Hhex Hlen].
      rewrite <- (app_nil_r blob).
      apply match_upper_hex_text_intro; [exact Hhex | | left; reflexivity].
      destruct blob; [simpl in Hlen; lia | discriminate]. }
    destruct Hsource as [[Hx Hne] | [Hs | Hd]].
    - exact (extract_xrpl_transaction_shape v blob Hx Hne).
    - exact (Hscan text Hs).
    - apply decode_keystone_ur_source in Hd.
      destruct Hd as [(v' & Hx & Hne) | Hs].
      + exact (extract_xrpl_transaction_shape v' blob Hx Hne).
      + exact (Hscan _ Hs). }
  apply match_upper_hex_text_inv in Hmatch.
  destruct Hmatch as (run & rest & -> & Hall & Hne & [-> | ->]).
  - rewrite app_nil_r. split; [exact Hne |].
    apply Forall_forall. intros c Hc. apply is_upper_hex_chars.
    rewrite forallb_forall in Hall. exact (Hall c Hc).
  - exfalso. apply Hlast. apply last_last.
Qed.

(** ** C5 *)

(** C5, amended.  Word-chunk decoding is deterministic, and on every input
    string in which each character has a one-character upper-case form
    (every ASCII string is one) it returns exactly floor(length / 4) bytes,
    one per consecutive non-overlapping group of four characters (trailing
    remainder dropped), each byte equal to the sum of the four characters'
    base-36 digit values (a character whose upper-case form is A-Z maps to
    0-25, one whose upper-case form is 0-9 maps to 26-35, any other
    character maps to 0) weighted 36^3, 36^2, 36^1, 36^0 leftmost most
    significant, reduced modulo 256, and each byte is in [0, 255].  On ASCII
    strings the digit values are those of the claim as first stated: A-Z and
    a-z map to 0-25. *)
Theorem decode_keystone_bytewords_word_chunks (data : str) :
  Forall (fun c => length (upper_char c) = 1%nat) data ->
  exists decoded,
    decode_keystone_bytewords data = Ok decoded
    /\ length decoded = (length data / 4)%nat
    /\ map ord_byte decoded
       = Spec.word_chunks (fun c => char_val (upper_form c)) data
    /\ Forall (fun x => 0 <= ord_byte x <= 255) decoded
    /\ (Forall (fun c => c < 128) data ->
        map ord_byte decoded = Spec.word_chunks Spec.digit_value data).
Proof.
  intros Hsingle.
  destruct (decode_keystone_bytewords_single data Hsingle)
    as (decoded & E & Hbytes).
  exists decoded. split; [exact E |]. split.
  { rewrite <- (length_map ord_byte), Hbytes. apply word_chunks_length. }
  split; [exact Hbytes |]. split.
  { apply Forall_forall. intros x _. pose proof (ord_byte_range x). lia. }
  intros Hascii.
  destruct (decode_keystone_bytewords_ascii data Hascii) as (d' & E' & H').
  rewrite E in E'. injection E' as <-. exact H'.
Qed.

(** ** C6 *)

(** C6. For every text of at most ten characters the text-to-bytes decoder
    leaves the word-chunk strategy out and returns what the base-32
    fallback gives; for every text of more than ten characters its outcome
    is the outcome of the word-chunk strategy. *)
Theorem decode_base32_alphabet_strategy (data : str) :
  ((length data <= 10)%nat ->
   decode_base32_alphabet data = Ok (base32_fallback data))
  /\ ((10 < length data)%nat ->
      decode_base32_alphabet data = decode_keystone_bytewords data).
Proof.
  split.
  - apply decode_base32_alphabet_short.
  - apply decode_base32_alphabet_long.
Qed.

(** ** C7 *)

(** C7, amended.  For every string s that does not itself start with
    UR:BYTES/, decoding "UR:BYTES/" + s gives the same outcome as decoding
    s: the orchestrator takes the literal prefix off once when it is there
    and leaves the input as it is otherwise. *)
Theorem decode_keystone_ur_prefix (s : str) :
  startswith ur_prefix s = false ->
  strip_prefix (ur_prefix ++ s) = strip_prefix s
  /\ decode_keystone_ur (ur_prefix ++ s) = decode_keystone_ur s.
Proof.
  intros Hs. unfold decode_keystone_ur.
  rewrite strip_prefix_app, (strip_prefix_other s Hs).
  split; reflexivity.
Qed.

(** ** C9 *)

(** C9, at the input on which the code departs from it.  Where the
    upper-case form of 'ß' is 'SS', the text-to-bytes decoder does not
    return for the twelve characters 'ßAAAAAAAAAAA', and neither does the
    orchestrator: the [TypeError] of the word-chunk strategy, which is
    called outside the [try] block, goes through both. *)
Theorem decode_text_sharp_s_raises :
  unicode_upper 223 = py "SS" ->
  decode_base32_alphabet sharp_s_text = Raise TypeError
  /\ decode_keystone_ur sharp_s_text = Raise TypeError.
Proof.
  intros Hupper.
  assert (Hb : decode_keystone_bytewords sharp_s_text = Raise TypeError)
    by (apply sharp_s_raises, Hupper).
  assert (Hd : decode_base32_alphabet sharp_s_text = Raise TypeError).
  { rewrite decode_base32_alphabet_long; [exact Hb | cbn; lia]. }
  split; [exact Hd |].
  unfold decode_keystone_ur.
  change (strip_prefix sharp_s_text) with sharp_s_text.
  rewrite Hd. reflexivity.
Qed.

(** ** C10 *)

(** C10. For every map whose first-present priority field holds an empty
    byte string, the field extractor returns the empty string; the search
    of the nested maps goes past a nested map with that result, and the
    orchestrator, given such a map by the binary decoder, returns what the
    fallback scanner finds in the stripped text. *)
Theorem empty_bytes_field_falls_through (entries : list (value * value))
        (field : str) :
  Spec.first_present entries = Some field ->
  dict_get entries field = Some (VBytes []) ->
  extract_xrpl_transaction (VDict entries) = Some []
  /\ (forall key rest,
        scan_nested extract_xrpl_transaction ((key, VDict entries) :: rest)
        = scan_nested extract_xrpl_transaction rest)
  /\ (forall ur_data decoded_bytes,
        decode_base32_alphabet (strip_prefix ur_data) = Ok decoded_bytes ->
        decode_cbor_bytes decoded_bytes = Some (VDict entries) ->
        decode_keystone_ur ur_data
        = Ok (scan_fallback (strip_prefix ur_data))).
Proof.
  intros Hfirst Hget.
  assert (Hx : extract_xrpl_transaction (VDict entries) = Some []).
  { cbn [extract_xrpl_transaction].
    rewrite (scan_fields_first_present entries possible_fields field []);
      [reflexivity | exact Hfirst |].
    unfold field_blob. rewrite Hget. reflexivity. }
  split; [exact Hx |]. split.
  - intros key rest. cbn [scan_nested]. rewrite Hx. reflexivity.
  - intros ur_data decoded_bytes Hdecoded Hcbor. unfold decode_keystone_ur.
    rewrite Hdecoded. cbn [bind]. unfold method1.
    rewrite Hcbor.
    assert (Hcall : extract_xrpl_transaction_call (S recursion_depth)
                      (VDict entries) = Ok (Some [])).
    { cbn [extract_xrpl_transaction_call].
      rewrite (scan_fields_first_present entries possible_fields field []);
        [reflexivity | exact Hfirst |].
      unfold field_blob. rewrite Hget. reflexivity. }
    rewrite Hcall.
    destruct (nonempty decoded_bytes), (truthy (VDict entries)); reflexivity.
Qed.

End Claims.

(** * Further properties of the script *)

(** ** The word-chunk decoder *)

Lemma chunk_value_short (j b : Z) (chunk : str) :
  0 <= j -> j + Z.of_nat (length chunk) <= 4 -> 0 <= b < 256 ->
  exists z, chunk_value j (PyInt b) chunk = PyInt z /\ 0 <= z < 256.
Proof.
  revert j b. induction chunk as [| c chunk IH]; intros j b Hj Hlen Hb.
  - exists b. split; [reflexivity | exact Hb].
  - cbn [chunk_value]. unfold accumulate, pow36. cbn [length] in Hlen.
    destruct (Z.leb_spec 0 (3 - j)); [| lia].
    apply IH; [lia | lia |]. apply Z.mod_pos_bound. lia.
Qed.

Lemma length_chunk_mod (a b c d : char) (rest : str) :
  (length (a :: b :: c :: d :: rest) mod 4 = length rest mod 4)%nat.
Proof.
  change (length (a :: b :: c :: d :: rest)) with (4 + length rest)%nat.
  replace (4 + length rest)%nat with (length rest + 1 * 4)%nat by lia.
  apply Nat.Div0.mod_add.
Qed.

Lemma ascii_upper_idem (c : char) : ascii_upper (ascii_upper c) = ascii_upper c.
Proof.
  unfold ascii_upper.
  destruct (is_lower_az c) eqn:E; [| rewrite E; reflexivity].
  unfold is_lower_az, in_range in *.
  apply andb_true_iff in E. destruct E as [E1 E2]. apply Z.leb_le in E1, E2.
  destruct (Z.leb_spec 97 (c - 32)); [lia | reflexivity].
Qed.

Lemma ascii_upper_ascii (c : char) : c < 128 -> ascii_upper c < 128.
Proof.
  unfold ascii_upper, is_lower_az, in_range.
  destruct (Z.leb_spec 97 c); destruct (Z.leb_spec c 122); cbn [andb]; lia.
Qed.

Lemma append_byte_ord (x : byte) : append_byte (PyInt (ord_byte x)) = Ok x.
Proof.
  pose proof (ord_byte_range x) as Hx. unfold append_byte.
  destruct (Z.leb_spec 0 (ord_byte x)); [| lia].
  destruct (Z.ltb_spec (ord_byte x) 256); [| lia]. cbn [andb].
  unfold ord_byte. rewrite N2Z.id, Byte.of_to_N. reflexivity.
Qed.

Section BytewordsMore.
Context {R : Runtime}.

Lemma chunk_value_ascii (a b c d : char) :
  a < 128 -> b < 128 -> c < 128 -> d < 128 ->
  chunk_value 0 (PyInt 0) (str_upper [a; b; c; d])
  = PyInt (Spec.group_byte Spec.digit_value a b c d).
Proof.
  intros Ha Hb Hc Hd.
  rewrite str_upper_ascii by (repeat constructor; assumption).
  cbn [map]. rewrite chunk_value_four. unfold Spec.group_byte.
  rewrite !char_val_ascii_upper. reflexivity.
Qed.

(** X1. Decoding a text made of two parts, the first of a length that is a
    multiple of four, decodes the two parts one after the other: the bytes
    are those of the first part followed by those of the second, and an
    exception of either part is the exception of the whole. *)
Theorem decode_keystone_bytewords_app (first second : str) :
  (length first mod 4 = 0)%nat ->
  decode_keystone_bytewords (first ++ second)
  = (x <- decode_keystone_bytewords first ;;
     y <- decode_keystone_bytewords second ;;
     Ok (x ++ y)).
Proof.
  induction first as [first Hshort | a b c d rest IH] using chunks_ind;
    intros Hlen.
  - rewrite Nat.mod_small in Hlen by exact Hshort.
    destruct first; [| discriminate]. cbn [app decode_keystone_bytewords bind].
    destruct (decode_keystone_bytewords second); reflexivity.
  - rewrite length_chunk_mod in Hlen.
    cbn [app decode_keystone_bytewords].
    destruct (append_byte _) as [x | e]; cbn [bind]; [| reflexivity].
    rewrite (IH Hlen).
    destruct (decode_keystone_bytewords rest) as [xs | e]; cbn [bind];
      [| reflexivity].
    destruct (decode_keystone_bytewords second); reflexivity.
Qed.

(** X2. The characters left over after the last full group of four have no
    part in the result: a text decodes as its longest prefix of a length
    that is a multiple of four. *)
Theorem decode_keystone_bytewords_remainder (data : str) :
  decode_keystone_bytewords data
  = decode_keystone_bytewords
      (firstn (length data - length data mod 4) data).
Proof.
  induction data as [data Hshort | a b c d rest IH] using chunks_ind.
  - rewrite Nat.mod_small by exact Hshort. rewrite Nat.sub_diag.
    short_chunk data Hshort; reflexivity.
  - rewrite length_chunk_mod.
    pose proof (Nat.Div0.mod_le (length rest) 4) as Hle.
    replace (length (a :: b :: c :: d :: rest) - length rest mod 4)%nat
      with (S (S (S (S (length rest - length rest mod 4)))))
      by (cbn [length]; lia).
    cbn [firstn decode_keystone_bytewords]. rewrite <- IH. reflexivity.
Qed.

(** X3. The word-chunk decoder returns exactly when no group of four has an
    upper-case form of more than four characters, and then with one byte
    per group; when some group has such a form it raises [TypeError]. *)
Theorem decode_keystone_bytewords_outcome (data : str) :
  (Forall (fun g => (length (str_upper g) <= 4)%nat) (word_groups data) ->
   exists decoded,
     decode_keystone_bytewords data = Ok decoded
     /\ length decoded = length (word_groups data))
  /\ (Exists (fun g => (4 < length (str_upper g))%nat) (word_groups data) ->
      decode_keystone_bytewords data = Raise TypeError).
Proof.
  induction data as [data Hshort | a b c d rest [IHok IHraise]]
    using chunks_ind.
  - split.
    + intros _. exists []. short_chunk data Hshort; split; reflexivity.
    + intros H. short_chunk data Hshort; inversion H.
  - cbn [word_groups]. split.
    + intros H. inversion H as [| ? ? Hg Hrest]; subst.
      destruct (IHok Hrest) as (xs & Exs & Hxs).
      destruct (chunk_value_short 0 0 (str_upper [a; b; c; d]))
        as (z & Ez & Hz); [lia | apply inj_le in Hg; lia | lia |].
      destruct (append_byte_int z Hz) as (x & Ex & _).
      exists (x :: xs). cbn [decode_keystone_bytewords].
      rewrite Ez, Ex, Exs. cbn [bind length]. rewrite Hxs.
      split; reflexivity.
    + intros H. inversion H as [? ? Hg | ? ? Hrest]; subst.
      * apply decode_keystone_bytewords_long_chunk, Hg.
      * cbn [decode_keystone_bytewords]. rewrite (IHraise Hrest).
        destruct (chunk_value_cases (str_upper [a; b; c; d]) 0 0)
          as [-> | (z & -> & Hz)]; [lia | reflexivity |].
        destruct (append_byte_int z Hz) as (x & -> & _). reflexivity.
Qed.

(** X4. On ASCII text the word-chunk decoder does not tell the case of
    letters: the upper-cased text decodes as the text. *)
Theorem decode_keystone_bytewords_case (data : str) :
  Forall (fun c => c < 128) data ->
  decode_keystone_bytewords (str_upper data) = decode_keystone_bytewords data.
Proof.
  intros Hascii. rewrite (str_upper_ascii data Hascii).
  induction data as [data Hshort | a b c d rest IH] using chunks_ind.
  - short_chunk data Hshort; reflexivity.
  - forall_chunk Hascii Ha Hb Hc Hd Hrest.
    cbn [map decode_keystone_bytewords]. rewrite (IH Hrest).
    rewrite !chunk_value_ascii by (try apply ascii_upper_ascii; assumption).
    unfold Spec.group_byte.
    rewrite <- !char_val_ascii_upper, !ascii_upper_idem. reflexivity.
Qed.

(** X5. Every byte string is the decoding of some text: for each of its
    bytes the text has a group of four capital letters. *)
Theorem decode_keystone_bytewords_onto (decoded : bytes) :
  exists data,
    length data = (4 * length decoded)%nat
    /\ forallb is_upper_AZ data = true
    /\ decode_keystone_bytewords data = Ok decoded.
Proof.
  exists (text_of_bytes decoded). unfold text_of_bytes.
  induction decoded as [| x decoded (Hlen & Hletters & Hdec)].
  - repeat split; reflexivity.
  - pose proof (ord_byte_range x) as Hx.
    assert (H0 : 0 <= ord_byte x / 64 < 4)
      by (split; [apply Z.div_pos | apply Z.div_lt_upper_bound]; lia).
    assert (H1 : 0 <= (ord_byte x mod 64) / 16 < 4).
    { pose proof (Z.mod_pos_bound (ord_byte x) 64).
      split; [apply Z.div_pos | apply Z.div_lt_upper_bound]; lia. }
    assert (H3 : 0 <= ord_byte x mod 16 < 16) by (apply Z.mod_pos_bound; lia).
    cbn [flat_map]. unfold group_of_byte at 1 3 5. cbn [app].
    split; [cbn [length]; rewrite Hlen; lia |]. split.
    + cbn [forallb]. rewrite Hletters.
      unfold is_upper_AZ, in_range, letter.
      repeat match goal with
             | |- context [?u <=? ?v] => destruct (Z.leb_spec u v)
             end; cbn [andb]; try reflexivity; lia.
    + cbn [decode_keystone_bytewords]. rewrite Hdec.
      rewrite chunk_value_ascii by (unfold letter; lia).
      replace (Spec.group_byte Spec.digit_value
                 (letter (ord_byte x / 64))
                 (letter (ord_byte x mod 64 / 16)) (letter 0)
                 (letter (ord_byte x mod 16)))
        with (ord_byte x).
      { rewrite append_byte_ord. reflexivity. }
      assert (Hd : forall n, 0 <= n < 26 -> Spec.digit_value (letter n) = n).
      { intros n Hn. unfold Spec.digit_value, letter, is_upper_AZ, in_range.
        destruct (Z.leb_spec 65 (65 + n)); [| lia].
        destruct (Z.leb_spec (65 + n) 90); [| lia]. cbn [andb]. lia. }
      unfold Spec.group_byte. rewrite !Hd by lia.
      change (36 ^ 3) with 46656. change (36 ^ 2) with 1296.
      change (36 ^ 1) with 36. change (36 ^ 0) with 1.
      Z.div_mod_to_equations. lia.
Qed.

(** X6. The decoding loses information: in a group of four ASCII
    characters the first counts only by its digit modulo 4, so that two
    first characters whose digits differ by a multiple of four give the
    same bytes. *)
Theorem decode_keystone_bytewords_lossy (a a' b c d : char) (rest : str) :
  a < 128 -> a' < 128 -> b < 128 -> c < 128 -> d < 128 ->
  Spec.digit_value a mod 4 = Spec.digit_value a' mod 4 ->
  decode_keystone_bytewords (a :: b :: c :: d :: rest)
  = decode_keystone_bytewords (a' :: b :: c :: d :: rest).
Proof.
  intros Ha Ha' Hb Hc Hd Hmod. cbn [decode_keystone_bytewords].
  rewrite !chunk_value_ascii by assumption.
  replace (Spec.group_byte Spec.digit_value a' b c d)
    with (Spec.group_byte Spec.digit_value a b c d); [reflexivity |].
  unfold Spec.group_byte.
  change (36 ^ 3) with 46656. change (36 ^ 2) with 1296.
  change (36 ^ 1) with 36. change (36 ^ 0) with 1.
  generalize dependent (Spec.digit_value a).
  generalize dependent (Spec.digit_value a').
  intros da' da Hmod.
  generalize (Spec.digit_value b * 1296 + Spec.digit_value c * 36
              + Spec.digit_value d * 1).
  intros t. rewrite <- !Z.add_assoc.
  Z.div_mod_to_equations. lia.
Qed.

End BytewordsMore.

(** ** The text-to-bytes decoder *)

Lemma translate_char_in (table : list (char * char)) (c : char) :
  In c (map fst table) -> In (translate_char table c) (map snd table).
Proof.
  induction table as [| [k v] table IH]; [intros [] |].
  cbn [map fst snd translate_char In]. intros Hin.
  destruct (Z.eqb_spec k c) as [-> | Hne]; [left; reflexivity |].
  right. apply IH. destruct Hin as [Heq | Hin]; [congruence | exact Hin].
Qed.

Lemma ascii_upper_ascii_inv (c : char) : ascii_upper c < 128 -> c < 128.
Proof.
  unfold ascii_upper, is_lower_az, in_range.
  destruct (Z.leb_spec 97 c); destruct (Z.leb_spec c 122); cbn [andb]; lia.
Qed.

Section TextToBytesMore.
Context {R : Runtime}.

(** X7. The text-to-bytes decoder returns the empty byte string only for a
    text of at most ten characters, and then because the base-32 fallback
    returned it. *)
Theorem decode_base32_alphabet_empty (data : str) :
  decode_base32_alphabet data = Ok [] ->
  (length data <= 10)%nat /\ base32_fallback data = [].
Proof.
  intros H. destruct (Nat.ltb_spec 10 (length data)) as [Hlong | Hshort].
  - rewrite (decode_base32_alphabet_long data Hlong) in H.
    apply decode_keystone_bytewords_length in H. cbn [length] in H.
    symmetry in H. apply Nat.div_small_iff in H; lia.
  - rewrite (decode_base32_alphabet_short data Hshort) in H.
    injection H as H. split; assumption.
Qed.

Lemma try_paddings_first (translated : str) (decoded : bytes)
      (padding len start : nat) :
  (start <= padding < start + len)%nat ->
  (forall q, (start <= q < padding)%nat ->
             b32decode (translated ++ repeat 61 q) = None) ->
  b32decode (translated ++ repeat 61 padding) = Some decoded ->
  try_paddings translated (seq start len) = decoded.
Proof.
  revert start. induction len as [| len IH]; intros start Hp Hnone Hsome;
    [lia |].
  cbn [seq try_paddings].
  destruct (Nat.eq_dec start padding) as [-> | Hne].
  - rewrite Hsome. reflexivity.
  - rewrite (Hnone start) by lia. apply IH; [lia | | exact Hsome].
    intros q Hq. apply Hnone. lia.
Qed.

(** X8. The base-32 fallback returns the decoding with the least number of
    pad characters, from none to seven, that [b32decode] accepts. *)
Theorem base32_fallback_first_padding (data : str) (decoded : bytes)
        (padding : nat) :
  (padding < 8)%nat ->
  (forall q, (q < padding)%nat ->
     b32decode (translate translation (str_upper data) ++ repeat 61 q)
     = None) ->
  b32decode (translate translation (str_upper data) ++ repeat 61 padding)
  = Some decoded ->
  base32_fallback data = decoded.
Proof.
  intros Hp Hnone Hsome. unfold base32_fallback.
  apply (try_paddings_first _ decoded padding); [lia | | exact Hsome].
  intros q Hq. apply Hnone. lia.
Qed.

(** X9. A text written in the symbols of the BC-UR alphabet, in either
    case, is translated character by character into a text of the same
    length in the symbols of the standard base-32 alphabet. *)
Theorem translate_alphabet (data : str) :
  Forall (fun c => In (ascii_upper c) (map ascii_upper alphabet)) data ->
  length (translate translation (str_upper data)) = length data
  /\ Forall (fun c => In c standard_alphabet)
            (translate translation (str_upper data)).
Proof.
  intros Hdata.
  assert (Hsym : forall u, In u (map ascii_upper alphabet) -> u < 128).
  { intros u Hu.
    assert (Hall : forallb (fun x => x <? 128) (map ascii_upper alphabet)
                   = true) by reflexivity.
    rewrite forallb_forall in Hall. apply Z.ltb_lt, Hall, Hu. }
  assert (Hascii : Forall (fun c => c < 128) data).
  { eapply Forall_impl; [| exact Hdata]. intros c Hc.
    apply ascii_upper_ascii_inv, Hsym, Hc. }
  rewrite (str_upper_ascii data Hascii). unfold translate.
  rewrite !length_map. split; [reflexivity |].
  rewrite !Forall_map. eapply Forall_impl; [| exact Hdata].
  intros c Hc. cbv beta.
  assert (Hfst : map fst translation = map ascii_upper alphabet)
    by reflexivity.
  assert (Hsnd : map snd translation = standard_alphabet) by reflexivity.
  rewrite <- Hsnd. apply translate_char_in. rewrite Hfst. exact Hc.
Qed.

End TextToBytesMore.

(** ** The field extractor *)

Lemma dict_get_in (entries : list (value * value)) (field : str) (v : value) :
  dict_get entries field = Some v -> exists key, In (key, v) entries.
Proof.
  induction entries as [| [k x] entries IH]; [discriminate |].
  cbn [dict_get].
  assert (Hnext : dict_get entries field = Some v ->
                  exists key, In (key, v) ((k, x) :: entries)).
  { intros H. destruct (IH H) as (key & Hin). exists key. right. exact Hin. }
  destruct k; try exact Hnext.
  destruct (str_eqb s field); [| exact Hnext].
  intros [= ->]. eexists. left. reflexivity.
Qed.

Lemma upper_hex_digit_inj (m n : Z) :
  0 <= m < 16 -> 0 <= n < 16 ->
  ascii_upper (hex_digit m) = ascii_upper (hex_digit n) -> m = n.
Proof.
  intros Hm Hn. unfold ascii_upper, hex_digit, is_lower_az, in_range.
  destruct (Z.ltb_spec m 10); destruct (Z.ltb_spec n 10);
    repeat match goal with
           | |- context [?a <=? ?b] => destruct (Z.leb_spec a b)
           end; cbn [andb]; lia.
Qed.

Lemma ord_byte_inj (x y : byte) : ord_byte x = ord_byte y -> x = y.
Proof.
  unfold ord_byte. intros H. apply N2Z.inj in H.
  pose proof (Byte.of_to_N x) as Hx. rewrite H, Byte.of_to_N in Hx.
  congruence.
Qed.

Lemma upper_bytes_hex_inj (b1 b2 : bytes) :
  map ascii_upper (bytes_hex b1) = map ascii_upper (bytes_hex b2) -> b1 = b2.
Proof.
  revert b2. induction b1 as [| x b1 IH]; intros [| y b2]; try discriminate.
  - reflexivity.
  - unfold bytes_hex. cbn [flat_map app map]. fold (bytes_hex b1).
    fold (bytes_hex b2). intros [= Hhi Hlo Hrest].
    pose proof (ord_byte_range x) as Hx. pose proof (ord_byte_range y) as Hy.
    apply upper_hex_digit_inj in Hhi;
      [| split; [apply Z.div_pos | apply Z.div_lt_upper_bound]; lia
       | split; [apply Z.div_pos | apply Z.div_lt_upper_bound]; lia].
    apply upper_hex_digit_inj in Hlo;
      [| apply Z.mod_pos_bound; lia | apply Z.mod_pos_bound; lia].
    f_equal; [| exact (IH b2 Hrest)].
    apply ord_byte_inj.
    rewrite (Z.div_mod (ord_byte x) 16), (Z.div_mod (ord_byte y) 16) by lia.
    rewrite Hhi, Hlo. reflexivity.
Qed.

Section ExtractorMore.
Context {R : Runtime}.

Lemma scan_fields_app (entries : list (value * value)) (pre post : list str) :
  (forall g, In g pre -> field_blob entries g = None) ->
  scan_fields entries (pre ++ post) = scan_fields entries post.
Proof.
  induction pre as [| g pre IH]; intros H; [reflexivity |].
  cbn [app scan_fields]. rewrite (H g) by (left; reflexivity).
  apply IH. intros g' Hg'. apply H. right. exact Hg'.
Qed.

(** X10. The field extractor returns the value of the first priority field,
    in the order of the list, that holds hexadecimal text or bytes; fields
    before it that are absent or of another shape are passed over, and the
    nested maps are not looked at. *)
Theorem extract_first_qualifying (entries : list (value * value))
        (pre post : list str) (field blob : str) :
  possible_fields = pre ++ field :: post ->
  (forall g, In g pre -> field_blob entries g = None) ->
  field_blob entries field = Some blob ->
  extract_xrpl_transaction (VDict entries) = Some blob.
Proof.
  intros Hfields Hpre Hfield. cbn [extract_xrpl_transaction].
  rewrite Hfields, (scan_fields_app entries pre _ Hpre).
  cbn [scan_fields]. rewrite Hfield. reflexivity.
Qed.

(** X11. Whatever the field extractor returns is the value of one of the
    seven priority fields in the object itself or in a map reached from it
    through the values of maps. *)
Theorem extract_sound (v : value) (blob : str) :
  extract_xrpl_transaction v = Some blob ->
  exists entries field,
    reaches v entries /\ In field possible_fields
    /\ field_blob entries field = Some blob.
Proof.
  revert blob. induction v as [entries IH | v Hv] using value_dict_ind;
    intros blob.
  - cbn [extract_xrpl_transaction].
    destruct (scan_fields entries possible_fields) as [b |] eqn:Es.
    + intros [= ->]. apply scan_fields_some in Es.
      destruct Es as (f & Hin & Hf).
      exists entries, f. split; [constructor | split; assumption].
    + intros Hn. apply scan_nested_some in Hn.
      destruct Hn as ([k x] & Hin & Hx & _). cbn [snd] in Hx.
      rewrite Forall_forall in IH.
      destruct (IH (k, x) Hin blob Hx) as (inner & f & Hreach & Hf).
      exists inner, f. split; [| exact Hf].
      exact (reaches_inside entries inner k x Hin Hreach).
  - destruct v; try discriminate Hv; discriminate.
Qed.

Lemma scan_nested_plain (self : value -> option str)
      (entries : list (value * value)) :
  (forall kv, In kv entries -> is_dict (snd kv) = false) ->
  scan_nested self entries = None.
Proof.
  induction entries as [| [k x] entries IH]; intros H; [reflexivity |].
  cbn [scan_nested].
  assert (Hx : is_dict x = false) by (apply (H (k, x)); left; reflexivity).
  assert (Hrest : scan_nested self entries = None)
    by (apply IH; intros kv Hkv; apply H; right; exact Hkv).
  destruct x; try exact Hrest. discriminate Hx.
Qed.

(** X12. A map none of whose values is text, bytes or a map gives no blob,
    whatever its keys: the field extractor does not look into arrays, and
    takes nothing from numbers, booleans or null. *)
Theorem extract_nothing_plain (entries : list (value * value)) :
  (forall kv, In kv entries -> is_plain (snd kv) = true) ->
  extract_xrpl_transaction (VDict entries) = None.
Proof.
  intros Hplain. cbn [extract_xrpl_transaction].
  assert (Hfields : scan_fields entries possible_fields = None).
  { generalize possible_fields. intros fields.
    induction fields as [| f fields IH]; [reflexivity |].
    cbn [scan_fields]. unfold field_blob.
    destruct (dict_get entries f) as [v |] eqn:Eg; [| exact IH].
    apply dict_get_in in Eg. destruct Eg as (key & Hin).
    pose proof (Hplain (key, v) Hin) as Hv. cbn [snd] in Hv.
    destruct v; try exact IH; discriminate Hv. }
  rewrite Hfields. apply scan_nested_plain.
  intros kv Hkv. pose proof (Hplain kv Hkv) as Hv.
  destruct (snd kv); try reflexivity. discriminate Hv.
Qed.

(** X13. The blob made from a byte string tells the byte string: two fields
    that hold bytes and give the same blob hold the same bytes. *)
Theorem field_blob_bytes_inj (entries1 entries2 : list (value * value))
        (field1 field2 : str) (value1 value2 : bytes) :
  dict_get entries1 field1 = Some (VBytes value1) ->
  dict_get entries2 field2 = Some (VBytes value2) ->
  field_blob entries1 field1 = field_blob entries2 field2 ->
  value1 = value2.
Proof.
  intros H1 H2. unfold field_blob. rewrite H1, H2.
  rewrite !str_upper_hex by apply bytes_hex_is_hex.
  intros [= H]. exact (upper_bytes_hex_inj value1 value2 H).
Qed.

Lemma scan_fields_lookup (entries1 entries2 : list (value * value))
      (fields : list str) :
  (forall f, In f fields -> dict_get entries1 f = dict_get entries2 f) ->
  scan_fields entries1 fields = scan_fields entries2 fields.
Proof.
  induction fields as [| f fields IH]; intros H; [reflexivity |].
  cbn [scan_fields]. unfold field_blob at 1 2.
  rewrite (H f) by (left; reflexivity).
  rewrite IH by (intros g Hg; apply H; right; exact Hg). reflexivity.
Qed.

(** X14. When some priority field of a map qualifies, the result depends
    only on what the seven priority names are bound to: another map with
    the same bindings for them, in whatever order and with whatever other
    entries, gives the same blob. *)
Theorem extract_by_lookup (entries1 entries2 : list (value * value))
        (blob : str) :
  (forall f, In f possible_fields ->
             dict_get entries1 f = dict_get entries2 f) ->
  scan_fields entries1 possible_fields = Some blob ->
  extract_xrpl_transaction (VDict entries1) = Some blob
  /\ extract_xrpl_transaction (VDict entries2) = Some blob.
Proof.
  intros Hsame Hscan. cbn [extract_xrpl_transaction].
  rewrite <- (scan_fields_lookup entries1 entries2 possible_fields Hsame).
  rewrite Hscan. split; reflexivity.
Qed.

End ExtractorMore.

(** ** The fallback scanner *)

Lemma findall_steps_substring (fuel : nat) (s m : str) :
  In m (findall_steps fuel s) -> exists pre post, s = pre ++ m ++ post.
Proof.
  revert s. induction fuel as [| fuel IH]; intros s; [intros [] |].
  destruct s as [| c s]; [intros [] |]. cbn [findall_steps].
  destruct (match_hex_run (c :: s)) as [[run rest] |] eqn:Em.
  - unfold match_hex_run in Em.
    destruct (span is_hex (c :: s)) as [run' rest'] eqn:E.
    destruct (100 <=? length run')%nat; [| discriminate].
    injection Em as -> ->. apply span_spec in E. destruct E as (E & _ & _).
    rewrite E. intros [<- | Hin].
    + exists [], rest. reflexivity.
    + destruct (IH rest Hin) as (pre & post & ->).
      exists (run ++ pre), post. rewrite <- app_assoc. reflexivity.
  - intros Hin. destruct (IH s Hin) as (pre & post & ->).
    exists (c :: pre), post. reflexivity.
Qed.

Lemma findall_steps_nil (fuel : nat) : findall_steps fuel [] = [].
Proof. destruct fuel; reflexivity. Qed.

(** A run of a hundred hexadecimal digits or more is the one match found in
    it. *)
Lemma findall_hex_runs_run (run : str) :
  forallb is_hex run = true -> (100 <= length run)%nat ->
  findall_hex_runs run = [run].
Proof.
  intros Hhex Hlen. unfold findall_hex_runs.
  destruct run as [| c run]; [cbn in Hlen; lia |].
  cbn [length findall_steps]. unfold match_hex_run.
  rewrite <- (app_nil_r (c :: run)) at 1.
  rewrite (span_app is_hex (c :: run) [] Hhex I).
  destruct (Nat.leb_spec 100 (length (c :: run))); [| lia].
  rewrite findall_steps_nil. reflexivity.
Qed.

Lemma startswith_digits_upper (p m : str) :
  forallb is_digit p = true ->
  startswith p (map ascii_upper m) = startswith p m.
Proof.
  revert m. induction p as [| x p IH]; intros m Hp; [reflexivity |].
  destruct m as [| y m]; [reflexivity |].
  cbn [forallb] in Hp. apply andb_true_iff in Hp. destruct Hp as [Hx Hp].
  cbn [map startswith]. rewrite (IH m Hp). f_equal.
  unfold is_digit, in_range in Hx. apply andb_true_iff in Hx.
  destruct Hx as [Hx1 Hx2]. apply Z.leb_le in Hx1, Hx2.
  unfold ascii_upper, is_lower_az, in_range.
  destruct (Z.leb_spec 97 y); destruct (Z.leb_spec y 122); cbn [andb];
    try reflexivity.
  destruct (Z.eqb_spec x (y - 32)); destruct (Z.eqb_spec x y);
    try reflexivity; lia.
Qed.

Lemma looks_like_transaction_upper (m : str) :
  looks_like_transaction (map ascii_upper m) = looks_like_transaction m.
Proof.
  unfold looks_like_transaction, hex_prefixes. cbn [existsb].
  rewrite !startswith_digits_upper by reflexivity. reflexivity.
Qed.

Lemma upper_hex_is_hex (s : str) :
  forallb is_upper_hex s = true -> forallb is_hex s = true.
Proof.
  induction s as [| c s IH]; [reflexivity |]. cbn [forallb].
  rewrite !andb_true_iff. intros [Hc Hs]. split; [| exact (IH Hs)].
  unfold is_hex. unfold is_upper_hex in Hc. rewrite Hc. reflexivity.
Qed.

Lemma map_ascii_upper_idem (s : str) :
  map ascii_upper (map ascii_upper s) = map ascii_upper s.
Proof.
  rewrite map_map. apply map_ext. intros c. apply ascii_upper_idem.
Qed.

Section ScannerMore.
Context {R : Runtime}.

Lemma first_transaction_match (hex_matches : list str) (blob : str) :
  first_transaction hex_matches = Some blob ->
  exists m, In m hex_matches /\ looks_like_transaction m = true
            /\ blob = str_upper m.
Proof.
  induction hex_matches as [| m more IH]; [discriminate |].
  cbn [first_transaction]. destruct (looks_like_transaction m) eqn:Hm.
  - intros [= <-]. exists m. repeat split; [left; reflexivity | exact Hm].
  - intros H. destruct (IH H) as (m' & Hin & Hm').
    exists m'. split; [right; exact Hin | exact Hm'].
Qed.

(** What the scanner returns, taken apart. *)
Lemma scan_fallback_run (text blob : str) :
  scan_fallback text = Some blob ->
  exists pre run post,
    text = pre ++ run ++ post
    /\ forallb is_hex run = true /\ (100 <= length run)%nat
    /\ looks_like_transaction run = true
    /\ blob = map ascii_upper run.
Proof.
  unfold scan_fallback, findall_hex_runs. intros H.
  apply first_transaction_match in H. destruct H as (m & Hin & Hlike & ->).
  pose proof (findall_steps_runs (length text) text) as Hruns.
  rewrite Forall_forall in Hruns. destruct (Hruns m Hin) as [Hhex Hlen].
  destruct (findall_steps_substring _ _ _ Hin) as (pre & post & E).
  exists pre, m, post. rewrite (str_upper_hex m Hhex). tauto.
Qed.


(** X16. A text of fewer than a hundred characters has no blob for the
    fallback scanner. *)
Theorem scan_fallback_short (text : str) :
  (length text < 100)%nat -> scan_fallback text = None.
Proof.
  intros Hshort. destruct (scan_fallback text) as [blob |] eqn:E;
    [| reflexivity].
  apply scan_fallback_run in E.
  destruct E as (pre & run & post & -> & _ & Hlen & _).
  rewrite !length_app in Hshort. lia.
Qed.

(** X17. A blob of the fallback scanner is a text on which the scanner
    returns that blob again. *)
Theorem scan_fallback_fixed_point (text blob : str) :
  scan_fallback text = Some blob -> scan_fallback blob = Some blob.
Proof.
  intros H. apply scan_fallback_run in H.
  destruct H as (pre & run & post & _ & Hhex & Hlen & Hlike & ->).
  assert (Hup : forallb is_hex (map ascii_upper run) = true)
    by (apply upper_hex_is_hex, forallb_upper_hex, Hhex).
  unfold scan_fallback.
  rewrite (findall_hex_runs_run (map ascii_upper run) Hup)
    by (rewrite length_map; exact Hlen).
  cbn [first_transaction].
  rewrite looks_like_transaction_upper, Hlike.
  rewrite (str_upper_hex _ Hup), map_ascii_upper_idem. reflexivity.
Qed.

(** X18. The fallback scanner finds the same blob in a text and in that
    text behind the prefix UR:BYTES/. *)
Theorem scan_fallback_prefix (text : str) :
  scan_fallback (ur_prefix ++ text) = scan_fallback text.
Proof.
  rewrite !scan_fallback_scanFallback. unfold Spec.scanFallback.
  replace (Spec.long_runs (ur_prefix ++ text)) with (Spec.long_runs text);
    [reflexivity |].
  rewrite ur_prefix_chars.
  unfold Spec.long_runs, Spec.maximal_hex_runs.
  cbn [app Spec.runs_from].
  change (is_hex 85) with false. change (is_hex 82) with false.
  change (is_hex 58) with false. change (is_hex 66) with true.
  change (is_hex 89) with false. change (is_hex 84) with false.
  change (is_hex 69) with true. change (is_hex 83) with false.
  change (is_hex 47) with false. cbv iota.
  cbn [Spec.close_run rev app filter length Nat.leb]. reflexivity.
Qed.

End ScannerMore.

(** ** The orchestrator and [main] *)

Section OrchestratorMore.
Context {R : Runtime}.


(** X19. When [cbor2] gives nothing (it cannot be imported, or it rejects
    the bytes), the orchestrator is the fallback scanner on the stripped
    text, after the text-to-bytes decoder has run and unless that
    raises. *)
Theorem decode_keystone_ur_without_cbor (ur_data : str) :
  (forall data, cbor2_loads data = None) ->
  decode_keystone_ur ur_data
  = (_ <- decode_base32_alphabet (strip_prefix ur_data) ;;
     Ok (scan_fallback (strip_prefix ur_data))).
Proof.
  intros Hcbor. unfold decode_keystone_ur.
  destruct (decode_base32_alphabet (strip_prefix ur_data)) as [decoded | e];
    cbn [bind]; [| reflexivity].
  unfold method1, decode_cbor_bytes. rewrite Hcbor.
  destruct (nonempty decoded); reflexivity.
Qed.

Lemma self_containing_dict (depth : nat) :
  is_dict (self_containing depth) = true.
Proof. destruct depth; reflexivity. Qed.

(** A call on the map that contains itself, unfolded beyond the room there
    is, raises [RecursionError]. *)
Lemma self_containing_raises (frames depth : nat) :
  (frames <= depth)%nat ->
  extract_xrpl_transaction_call frames (self_containing depth)
  = Raise RecursionError.
Proof.
  revert depth. induction frames as [| frames IH]; intros depth Hdeep;
    [reflexivity |].
  destruct depth as [| depth]; [lia |].
  cbn [self_containing extract_xrpl_transaction_call].
  change (scan_fields [(VStr (py "a"), self_containing depth)]
                      possible_fields) with (@None str).
  cbn [scan_nested_call].
  pose proof (self_containing_dict depth) as Hdict.
  rewrite (IH depth) by lia.
  destruct (self_containing depth); try discriminate Hdict. reflexivity.
Qed.



Lemma decode_keystone_ur_blob (ur_data blob : str) :
  decode_keystone_ur ur_data = Ok (Some blob) ->
  match_upper_hex_text blob = true.
Proof.
  intros Hd. apply decode_keystone_ur_source in Hd.
  destruct Hd as [(v & Hx & Hne) | Hs].
  - exact (extract_xrpl_transaction_shape v blob Hx Hne).
  - apply scan_fallback_shape in Hs. destruct Hs as [Hhex Hlen].
    rewrite <- (app_nil_r blob).
    apply match_upper_hex_text_intro; [exact Hhex | | left; reflexivity].
    destruct blob; [simpl in Hlen; lia | discriminate].
Qed.

(** X21. When [main] reports success, it was given exactly one argument, the
    orchestrator returned the reported blob for it, and the blob passes the
    pattern ^[0-9A-F]+$. *)
Theorem main_success (argv : list str) (blob : str) :
  main argv = Success blob ->
  exists script ur_data,
    argv = [script; ur_data]
    /\ decode_keystone_ur ur_data = Ok (Some blob)
    /\ match_upper_hex_text blob = true.
Proof.
  unfold main.
  destruct argv as [| script [| ur_data [| extra argv]]]; try discriminate.
  destruct (decode_keystone_ur ur_data) as [[result |] | e] eqn:Ed;
    try discriminate.
  destruct (nonempty result); [| discriminate].
  intros [= ->]. exists script, ur_data.
  split; [reflexivity |]. split; [exact Ed |].
  exact (decode_keystone_ur_blob ur_data blob Ed).
Qed.



(** X24. When the decoded bytes are what [cbor2] loads as a map that
    contains itself (kept as an unfolding deeper than the room for
    recursion), the field extractor never returns: the orchestrator raises
    [RecursionError], and [main] reports the failed decoding. *)
Theorem decode_keystone_ur_self_containing (script ur_data : str)
        (decoded : bytes) (depth : nat) :
  decode_base32_alphabet (strip_prefix ur_data) = Ok decoded ->
  decoded <> [] ->
  decode_cbor_bytes decoded = Some (self_containing depth) ->
  (S recursion_depth <= depth)%nat ->
  decode_keystone_ur ur_data = Raise RecursionError
  /\ main [script; ur_data] = DecodingFailed RecursionError.
Proof.
  intros Hdecoded Hne Hcbor Hdeep.
  assert (Hraise : decode_keystone_ur ur_data = Raise RecursionError).
  { unfold decode_keystone_ur. rewrite Hdecoded. cbn [bind].
    unfold method1. apply nonempty_true in Hne. rewrite Hne, Hcbor.
    rewrite (self_containing_raises _ depth Hdeep).
    destruct depth as [| depth]; [lia |]. reflexivity. }
  split; [exact Hraise |]. unfold main. rewrite Hraise. reflexivity.
Qed.

End OrchestratorMore.

(** * Examples on the demonstration runtime *)

#[local] Existing Instance demo_runtime.

(** C1: the claim as stated fails on the map of C2.  Its first-present
    priority field, signature, holds text that is not hexadecimal, and the
    extractor does not go to the search of the nested maps, which finds
    nothing here: it tries txBlob and returns its value. *)
Lemma extract_not_direct_to_nested :
  Spec.first_present entries_signature_txBlob = Some (py "signature")
  /\ field_blob entries_signature_txBlob (py "signature") = None
  /\ extract_xrpl_transaction (VDict entries_signature_txBlob)
     = Some (py "1122")
  /\ extract_xrpl_transaction (VDict entries_signature_txBlob)
     <> scan_nested extract_xrpl_transaction entries_signature_txBlob.
Proof. repeat split; try reflexivity. discriminate. Qed.

Lemma extract_tries_later_fields_witness :
  Spec.first_present entries_wrong_then_hex = Some (py "signedTransaction")
  /\ field_blob entries_wrong_then_hex (py "signedTransaction") = None
  /\ extract_xrpl_transaction (VDict entries_wrong_then_hex)
     = Some (py "AB").
Proof.
  split; [reflexivity |]. split; [reflexivity |].
  exact (extract_tries_later_fields entries_wrong_then_hex
           (py "signedTransaction") eq_refl eq_refl).
Defined.

(** In 'ff' * 50 + '/12/' + '12' + 'ab' * 60 the first run is long and
    starts with none of the prefixes, the second starts with 12 and is
    short, and the third is returned in upper case. *)
Lemma scan_fallback_meets_spec_witness :
  Spec.maximal_runs text_ff_12_ab [run_ff; py "12"; run_12_ab]
  /\ scan_fallback text_ff_12_ab
     = option_map (map Spec.upper_hex_digit)
         (find Spec.has_prefix
            (filter (fun run => (100 <=? length run)%nat)
                    [run_ff; py "12"; run_12_ab])).
Proof.
  assert (H : Spec.maximal_runs text_ff_12_ab [run_ff; py "12"; run_12_ab]).
  { change text_ff_12_ab
      with ([] ++ run_ff
            ++ (py "/" ++ py "12" ++ (py "/" ++ run_12_ab ++ []))).
    apply Spec.maximal_runs_next;
      [reflexivity | discriminate | reflexivity | reflexivity |].
    apply Spec.maximal_runs_next;
      [reflexivity | discriminate | reflexivity | reflexivity |].
    apply Spec.maximal_runs_next;
      [reflexivity | discriminate | reflexivity | exact I |].
    apply Spec.maximal_runs_none. reflexivity. }
  split; [exact H |].
  exact (scan_fallback_meets_spec text_ff_12_ab
           [run_ff; py "12"; run_12_ab] H).
Defined.

Lemma scan_fallback_skips_runs :
  scan_fallback text_ff_12_ab
  = Some (py "12" ++ concat (repeat (py "AB") 60)).
Proof. vm_compute. reflexivity. Qed.

(** C3: the claim as stated fails on the map {"hex": "ABC"}, whose blob
    has three characters: the script never looks at the parity of the
    length. *)
Lemma blob_of_odd_length :
  extract_xrpl_transaction (VDict entries_hex_ABC) = Some (py "ABC")
  /\ Nat.even (length (py "ABC")) = false.
Proof. split; reflexivity. Qed.

Lemma blob_upper_hex_digits_witness :
  ((extract_xrpl_transaction (VDict entries_hex_ABC) = Some (py "ABC")
    /\ py "ABC" <> [])
   /\ last (py "ABC") 0 <> 10)
  /\ py "ABC" <> []
  /\ Forall (fun c => In c Spec.upper_hex_digit_chars) (py "ABC").
Proof.
  assert (H : extract_xrpl_transaction (VDict entries_hex_ABC)
              = Some (py "ABC") /\ py "ABC" <> [])
    by (split; [reflexivity | discriminate]).
  assert (Hlast : last (py "ABC") 0 <> 10) by (cbn; lia).
  split; [split; [exact H | exact Hlast] |].
  exact (blob_upper_hex_digits (VDict entries_hex_ABC) [] [] (py "ABC")
           (or_introl H) Hlast).
Defined.

(** The pattern test of line 111 ends in [$], which also matches before a
    line feed that ends the text: the blob of {"hex": "AB\n"} keeps the
    line feed. *)
Lemma blob_with_line_feed :
  extract_xrpl_transaction (VDict entries_hex_AB_newline)
  = Some (py "AB" ++ [10])
  /\ forallb is_upper_hex (py "AB" ++ [10]) = false.
Proof. split; reflexivity. Qed.

(** C5: the claim as stated fails beyond ASCII.  The one character 'ſ'
    has the upper-case form 'S', so that 'ſAAA' is decoded to the byte 128
    where the digits of the claim give 0; and on 'ßAAA', whose upper-case
    form has five characters, the decoder raises instead of returning. *)
Lemma bytewords_beyond_ascii :
  decode_keystone_bytewords long_s_chunk = Ok [x80]
  /\ Spec.word_chunks Spec.digit_value long_s_chunk = [0]
  /\ decode_keystone_bytewords sharp_s_chunk = Raise TypeError.
Proof. repeat split; reflexivity. Qed.

Lemma decode_keystone_bytewords_word_chunks_witness :
  Forall (fun c => length (upper_char c) = 1%nat) (py "CCABbcad")
  /\ exists decoded,
       decode_keystone_bytewords (py "CCABbcad") = Ok decoded
       /\ length decoded = (length (py "CCABbcad") / 4)%nat
       /\ map ord_byte decoded
          = Spec.word_chunks (fun c => char_val (upper_form c))
                             (py "CCABbcad")
       /\ Forall (fun x => 0 <= ord_byte x <= 255) decoded
       /\ (Forall (fun c => c < 128) (py "CCABbcad") ->
           map ord_byte decoded
           = Spec.word_chunks Spec.digit_value (py "CCABbcad")).
Proof.
  assert (H : Forall (fun c => length (upper_char c) = 1%nat)
                     (py "CCABbcad"))
    by (repeat constructor).
  split; [exact H |].
  exact (decode_keystone_bytewords_word_chunks (py "CCABbcad") H).
Defined.

Lemma decode_base32_alphabet_strategy_witness :
  ((length (py "ABCD") <= 10)%nat
   /\ decode_base32_alphabet (py "ABCD") = Ok (base32_fallback (py "ABCD")))
  /\ ((10 < length ur_hex_AB)%nat
      /\ decode_base32_alphabet ur_hex_AB
         = decode_keystone_bytewords ur_hex_AB).
Proof.
  assert (Hshort : (length (py "ABCD") <= 10)%nat) by (cbn; lia).
  assert (Hlong : (10 < length ur_hex_AB)%nat) by (cbn; lia).
  split; split; try assumption.
  - exact (proj1 (decode_base32_alphabet_strategy (py "ABCD")) Hshort).
  - exact (proj2 (decode_base32_alphabet_strategy ur_hex_AB) Hlong).
Defined.

(** C7: the claim as stated fails on a string that starts with UR:BYTES/
    itself.  With s = "UR:BYTES/CCABBCADBCAIBCAFBDAIBCACBAABBAAC", decoding
    s takes the prefix off and finds the blob AB in the CBOR map that the
    rest spells, while decoding "UR:BYTES/" + s takes one prefix off and
    reads the second one as data. *)
Lemma decode_keystone_ur_double_prefix :
  decode_keystone_ur (ur_prefix ++ ur_hex_AB) = Ok (Some (py "AB"))
  /\ decode_keystone_ur (ur_prefix ++ (ur_prefix ++ ur_hex_AB)) = Ok None
  /\ decode_keystone_ur (ur_prefix ++ (ur_prefix ++ ur_hex_AB))
     <> decode_keystone_ur (ur_prefix ++ ur_hex_AB).
Proof.
  split; [vm_compute; reflexivity |]. split; [vm_compute; reflexivity |].
  vm_compute. discriminate.
Qed.

Lemma decode_keystone_ur_prefix_witness :
  startswith ur_prefix ur_hex_AB = false
  /\ decode_keystone_ur (ur_prefix ++ ur_hex_AB) = decode_keystone_ur ur_hex_AB.
Proof.
  split; [reflexivity |].
  exact (proj2 (decode_keystone_ur_prefix ur_hex_AB eq_refl)).
Defined.

Lemma decode_text_sharp_s_raises_witness :
  unicode_upper 223 = py "SS"
  /\ decode_keystone_ur sharp_s_text = Raise TypeError.
Proof.
  split; [reflexivity |]. exact (proj2 (decode_text_sharp_s_raises eq_refl)).
Defined.

Lemma empty_bytes_field_falls_through_witness :
  Spec.first_present entries_hex_empty = Some (py "hex")
  /\ dict_get entries_hex_empty (py "hex") = Some (VBytes [])
  /\ extract_xrpl_transaction (VDict entries_hex_empty) = Some []
  /\ decode_keystone_ur ur_hex_empty = Ok (scan_fallback ur_hex_empty).
Proof.
  split; [reflexivity |]. split; [reflexivity |].
  destruct (empty_bytes_field_falls_through entries_hex_empty (py "hex")
              eq_refl eq_refl) as (Hx & _ & Hur).
  split; [exact Hx |].
  apply (Hur ur_hex_empty
             [xa1; x63; x68; x65; x78; x40]%byte); reflexivity.
Defined.

(** ** Examples for the further properties *)

Lemma decode_keystone_bytewords_app_witness :
  (length (py "CCAB") mod 4 = 0)%nat
  /\ decode_keystone_bytewords (py "CCAB" ++ py "BCADxy")
     = (x <- decode_keystone_bytewords (py "CCAB") ;;
        y <- decode_keystone_bytewords (py "BCADxy") ;;
        Ok (x ++ y)).
Proof.
  split; [reflexivity |].
  exact (decode_keystone_bytewords_app (py "CCAB") (py "BCADxy") eq_refl).
Defined.

Lemma decode_keystone_bytewords_outcome_witness :
  (Forall (fun g => (length (str_upper g) <= 4)%nat)
          (word_groups (py "CCABBCAD"))
   /\ exists decoded,
        decode_keystone_bytewords (py "CCABBCAD") = Ok decoded
        /\ length decoded = length (word_groups (py "CCABBCAD")))
  /\ (Exists (fun g => (4 < length (str_upper g))%nat)
             (word_groups sharp_s_text)
      /\ decode_keystone_bytewords sharp_s_text = Raise TypeError).
Proof.
  assert (Hfits : Forall (fun g => (length (str_upper g) <= 4)%nat)
                         (word_groups (py "CCABBCAD")))
    by (repeat (constructor; [vm_compute; lia |]); constructor).
  assert (Hlong : Exists (fun g => (4 < length (str_upper g))%nat)
                         (word_groups sharp_s_text))
    by (left; vm_compute; lia).
  split; split; try assumption.
  - exact (proj1 (decode_keystone_bytewords_outcome (py "CCABBCAD")) Hfits).
  - exact (proj2 (decode_keystone_bytewords_outcome sharp_s_text) Hlong).
Defined.

Lemma decode_keystone_bytewords_case_witness :
  Forall (fun c => c < 128) (py "ccabBcad")
  /\ decode_keystone_bytewords (str_upper (py "ccabBcad"))
     = decode_keystone_bytewords (py "ccabBcad").
Proof.
  assert (H : Forall (fun c => c < 128) (py "ccabBcad"))
    by (repeat (constructor; [vm_compute; reflexivity |]); constructor).
  split; [exact H |].
  exact (decode_keystone_bytewords_case (py "ccabBcad") H).
Defined.

Lemma decode_keystone_bytewords_lossy_witness :
  Spec.digit_value 65 mod 4 = Spec.digit_value 69 mod 4
  /\ decode_keystone_bytewords (py "ABCD")
     = decode_keystone_bytewords (py "EBCD").
Proof.
  split; [reflexivity |].
  exact (decode_keystone_bytewords_lossy 65 69 66 67 68 []
           eq_refl eq_refl eq_refl eq_refl eq_refl eq_refl).
Defined.

Lemma decode_base32_alphabet_empty_witness :
  decode_base32_alphabet [] = Ok []
  /\ (length (@nil char) <= 10)%nat /\ base32_fallback [] = [].
Proof.
  split; [reflexivity |].
  exact (decode_base32_alphabet_empty [] eq_refl).
Defined.

(** On 'e5', translated to 'ME', [b32decode] rejects the paddings of none
    to five characters and accepts the sixth: the fallback returns b'a'. *)
Lemma base32_fallback_first_padding_witness :
  (6 < 8)%nat
  /\ (forall q, (q < 6)%nat ->
        b32decode (Runtime := demo_runtime_base32)
          (translate translation
             (str_upper (R := demo_runtime_base32) (py "e5"))
           ++ repeat 61 q)
        = None)
  /\ b32decode (Runtime := demo_runtime_base32)
       (translate translation
          (str_upper (R := demo_runtime_base32) (py "e5"))
        ++ repeat 61 6%nat)
     = Some [x61]
  /\ base32_fallback (R := demo_runtime_base32) (py "e5") = [x61].
Proof.
  assert (Hp : (6 < 8)%nat) by lia.
  assert (Hnone : forall q, (q < 6)%nat ->
            b32decode (Runtime := demo_runtime_base32)
              (translate translation
                 (str_upper (R := demo_runtime_base32) (py "e5"))
               ++ repeat 61 q)
            = None).
  { intros q Hq.
    do 6 (destruct q as [| q]; [reflexivity |]). exfalso. lia. }
  split; [exact Hp |]. split; [exact Hnone |]. split; [reflexivity |].
  exact (base32_fallback_first_padding (R := demo_runtime_base32)
           (py "e5") [x61] 6 Hp Hnone eq_refl).
Defined.

Lemma translate_alphabet_witness :
  Forall (fun c => In (ascii_upper c) (map ascii_upper alphabet)) (py "0z")
  /\ length (translate translation (str_upper (py "0z")))
     = length (py "0z")
  /\ Forall (fun c => In c standard_alphabet)
            (translate translation (str_upper (py "0z"))).
Proof.
  assert (H : Forall (fun c => In (ascii_upper c) (map ascii_upper alphabet))
                     (py "0z")).
  { constructor; [left; reflexivity |].
    constructor; [| constructor].
    do 31 right. left. reflexivity. }
  split; [exact H |]. exact (translate_alphabet (py "0z") H).
Defined.

Lemma extract_first_qualifying_witness :
  possible_fields
  = [py "signedTransaction"; py "signature"; py "txBlob"; py "blob";
     py "transaction"] ++ py "hex" :: [py "data"]
  /\ field_blob entries_wrong_then_hex (py "hex") = Some (py "AB")
  /\ extract_xrpl_transaction (VDict entries_wrong_then_hex)
     = Some (py "AB").
Proof.
  split; [reflexivity |]. split; [reflexivity |].
  refine (extract_first_qualifying entries_wrong_then_hex
            [py "signedTransaction"; py "signature"; py "txBlob"; py "blob";
             py "transaction"] [py "data"] (py "hex") (py "AB")
            eq_refl _ eq_refl).
  intros g [<- | [<- | [<- | [<- | [<- | []]]]]]; reflexivity.
Defined.

Lemma extract_sound_witness :
  extract_xrpl_transaction (VDict entries_two_deep) = Some (py "01AB")
  /\ exists entries field,
       reaches (VDict entries_two_deep) entries
       /\ In field possible_fields
       /\ field_blob entries field = Some (py "01AB").
Proof.
  split; [reflexivity |].
  exact (extract_sound (VDict entries_two_deep) (py "01AB") eq_refl).
Defined.

Lemma extract_nothing_plain_witness :
  (forall kv, In kv entries_plain -> is_plain (snd kv) = true)
  /\ extract_xrpl_transaction (VDict entries_plain) = None.
Proof.
  assert (H : forall kv, In kv entries_plain -> is_plain (snd kv) = true)
    by (intros kv [<- | [<- | []]]; reflexivity).
  split; [exact H |]. exact (extract_nothing_plain entries_plain H).
Defined.

Lemma field_blob_bytes_inj_witness :
  field_blob [(VStr (py "data"), VBytes [x01; xab])] (py "data")
  = field_blob [(VStr (py "hex"), VBytes [x01; xab])] (py "hex")
  /\ [x01; xab] = [x01; xab].
Proof.
  split; [reflexivity |].
  exact (field_blob_bytes_inj
           [(VStr (py "data"), VBytes [x01; xab])]
           [(VStr (py "hex"), VBytes [x01; xab])]
           (py "data") (py "hex") [x01; xab] [x01; xab]
           eq_refl eq_refl eq_refl).
Defined.

Lemma extract_by_lookup_witness :
  scan_fields entries_signature_txBlob possible_fields = Some (py "1122")
  /\ extract_xrpl_transaction (VDict entries_signature_txBlob)
     = Some (py "1122")
  /\ extract_xrpl_transaction (VDict entries_txBlob_signature)
     = Some (py "1122").
Proof.
  split; [reflexivity |].
  refine (extract_by_lookup entries_signature_txBlob
            entries_txBlob_signature (py "1122") _ eq_refl).
  intros f [<- | [<- | [<- | [<- | [<- | [<- | [<- | []]]]]]]]; reflexivity.
Defined.


Lemma scan_fallback_short_witness :
  (length (py "12ab") < 100)%nat /\ scan_fallback (py "12ab") = None.
Proof.
  assert (H : (length (py "12ab") < 100)%nat) by (vm_compute; lia).
  split; [exact H |]. exact (scan_fallback_short (py "12ab") H).
Defined.

Lemma scan_fallback_fixed_point_witness :
  scan_fallback text_xyz_12_ab = Some (map ascii_upper run_12_ab)
  /\ scan_fallback (map ascii_upper run_12_ab)
     = Some (map ascii_upper run_12_ab).
Proof.
  assert (H : scan_fallback text_xyz_12_ab = Some (map ascii_upper run_12_ab))
    by (vm_compute; reflexivity).
  split; [exact H |].
  exact (scan_fallback_fixed_point text_xyz_12_ab _ H).
Defined.

Lemma decode_keystone_ur_without_cbor_witness :
  (forall data, @cbor2_loads demo_runtime_without_cbor data = None)
  /\ @decode_keystone_ur demo_runtime_without_cbor text_xyz_12_ab
     = (_ <- @decode_base32_alphabet demo_runtime_without_cbor
               (strip_prefix text_xyz_12_ab) ;;
        Ok (@scan_fallback demo_runtime_without_cbor
              (strip_prefix text_xyz_12_ab))).
Proof.
  split; [reflexivity |].
  exact (@decode_keystone_ur_without_cbor demo_runtime_without_cbor
           text_xyz_12_ab (fun _ => eq_refl)).
Defined.


Lemma main_success_witness :
  main [py "decode_keystone_ur.py"; ur_prefix ++ ur_hex_AB]
  = Success (py "AB")
  /\ exists script ur_data,
       [py "decode_keystone_ur.py"; ur_prefix ++ ur_hex_AB]
       = [script; ur_data]
       /\ decode_keystone_ur ur_data = Ok (Some (py "AB"))
       /\ match_upper_hex_text (py "AB") = true.
Proof.
  assert (H : main [py "decode_keystone_ur.py"; ur_prefix ++ ur_hex_AB]
              = Success (py "AB")) by (vm_compute; reflexivity).
  split; [exact H |]. exact (main_success _ _ H).
Defined.



(** The argument UR:BYTES/DBAIABAMCCABBCABBCABDBAIABANAAAA spells the bytes
    d8 1c a1 61 61 d8 1d 00, which [cbor2] loads as the map that is its own
    value under the key 'a'. *)
Lemma decode_keystone_ur_self_containing_witness :
  (decode_base32_alphabet (strip_prefix (ur_prefix ++ ur_self_containing))
   = Ok [xd8; x1c; xa1; x61; x61; xd8; x1d; x00]
   /\ [xd8; x1c; xa1; x61; x61; xd8; x1d; x00] <> []
   /\ decode_cbor_bytes [xd8; x1c; xa1; x61; x61; xd8; x1d; x00]
      = Some (self_containing 1000)
   /\ (S recursion_depth <= 1000)%nat)
  /\ decode_keystone_ur (ur_prefix ++ ur_self_containing)
     = Raise RecursionError
  /\ main [py "decode_keystone_ur.py"; ur_prefix ++ ur_self_containing]
     = DecodingFailed RecursionError.
Proof.
  assert (Hd : decode_base32_alphabet
                 (strip_prefix (ur_prefix ++ ur_self_containing))
               = Ok [xd8; x1c; xa1; x61; x61; xd8; x1d; x00])
    by (vm_compute; reflexivity).
  assert (Hne : [xd8; x1c; xa1; x61; x61; xd8; x1d; x00] <> [])
    by discriminate.
  assert (Hc : decode_cbor_bytes [xd8; x1c; xa1; x61; x61; xd8; x1d; x00]
               = Some (self_containing 1000)) by reflexivity.
  assert (Hdeep : (S recursion_depth <= 1000)%nat) by (cbn; lia).
  split; [repeat split; assumption |].
  exact (decode_keystone_ur_self_containing (py "decode_keystone_ur.py")
           (ur_prefix ++ ur_self_containing) _ 1000 Hd Hne Hc Hdeep).
Defined.
